(** * WEConectSRT: audio to SubRip subtitles

    A shallow embedding of the two source files of the application:

    - [App.tsx]: [formatTime], [jsonToSrt] (the SRT encoder) and the
      [handleGenerateSrt] event handler of the [App] component;
    - [services/geminiService.ts]: [fileToBase64] and
      [generateTranscription] (the transcription client).

    Modelling conventions.

    - A JavaScript string is the list of its UTF-16 code units
      ([jsstring]); literals of the source are written as UTF-8 Rocq
      strings and decoded by [lit].
    - A JavaScript number is an IEEE 754 double, the [spec_float] of the
      standard library at precision 53: [/], [*] and [-] round to the
      nearest double, [%], [Math.floor] and [Math.round] are exact, and
      an integral number is printed as [Number.prototype.toString]
      prints it.
    - A promise is represented by its settled outcome, [Completion]:
      either a thrown value or a result.  What the client uses from
      outside the repository (the [FileReader], the generative service
      and [JSON.parse]) is a [Platform]; the requests sent to the service
      and the lines written to the console are recorded in a [Trace].
    - The check of [API_KEY] at the top of the service module (lines 4-8)
      runs once when the module is loaded; the model starts after it. *)

From Stdlib Require Import ZArith NArith QArith Qround Lqa List Lia Bool.
From Stdlib Require Import Strings.String Strings.Ascii DecimalPos.
From Stdlib Require Import Floats.SpecFloat.
Import ListNotations.

Set Implicit Arguments.
Set Warnings "-register-all".

(* ================================================================== *)
(** * JavaScript strings *)
(* ================================================================== *)

Module JsString.

Definition code_unit := N.
Definition jsstring := list code_unit.

(** ** Source literals: UTF-8 text to UTF-16 code units *)

Definition utf16_of_code_point (cp : N) : jsstring :=
  if (cp <? 65536)%N then [cp]
  else let v := (cp - 65536)%N in
       [(55296 + N.shiftr v 10)%N; (56320 + N.land v 1023)%N].

Fixpoint decode_utf8 (s : string) (pending : nat) (acc : N) : jsstring :=
  match s with
  | EmptyString => []
  | String c rest =>
      let b := N_of_ascii c in
      match pending with
      | O =>
          if (b <? 128)%N then b :: decode_utf8 rest 0 0%N
          else if (b <? 224)%N then decode_utf8 rest 1 (N.land b 31)
          else if (b <? 240)%N then decode_utf8 rest 2 (N.land b 15)
          else decode_utf8 rest 3 (N.land b 7)
      | S O =>
          utf16_of_code_point (acc * 64 + N.land b 63)%N
            ++ decode_utf8 rest 0 0%N
      | S n => decode_utf8 rest n (acc * 64 + N.land b 63)%N
      end
  end.

Definition lit (s : string) : jsstring := decode_utf8 s 0 0%N.

Definition LF : code_unit := 10%N.

Definition jsstring_eq_dec : forall a b : jsstring, {a = b} + {a <> b} :=
  list_eq_dec N.eq_dec.

(** ** [String.prototype.trim]

    The code units removed are ECMAScript's WhiteSpace and
    LineTerminator productions; all of them lie in the basic
    multilingual plane, so the test is per code unit. *)

Definition is_white_space (c : code_unit) : bool :=
  ((9 <=? c) && (c <=? 13) || (c =? 32) || (c =? 160) || (c =? 5760)
   || (8192 <=? c) && (c <=? 8202) || (c =? 8232) || (c =? 8233)
   || (c =? 8239) || (c =? 8287) || (c =? 12288) || (c =? 65279))%N.

Fixpoint trimStart (s : jsstring) : jsstring :=
  match s with
  | [] => []
  | c :: rest => if is_white_space c then trimStart rest else s
  end.

Fixpoint trimEnd (s : jsstring) : jsstring :=
  match s with
  | [] => []
  | c :: rest =>
      match trimEnd rest with
      | [] => if is_white_space c then [] else [c]
      | kept => c :: kept
      end
  end.

Definition trim (s : jsstring) : jsstring := trimEnd (trimStart s).

(** ** [String.prototype.padStart] *)

Definition padStart (s : jsstring) (targetLength : nat) (fill : jsstring)
  : jsstring :=
  let len := List.length s in
  if (targetLength <=? len)%nat then s
  else match fill with
       | [] => s
       | _ =>
           let fillLen := (targetLength - len)%nat in
           firstn fillLen (List.concat (repeat fill fillLen)) ++ s
       end.

(** ** [Array.prototype.join] on an array of strings *)

Fixpoint join (sep : jsstring) (parts : list jsstring) : jsstring :=
  match parts with
  | [] => []
  | [p] => p
  | p :: rest => p ++ sep ++ join sep rest
  end.

(** ** [String.prototype.split] with a one code unit separator *)

Fixpoint split_at (sep : code_unit) (s cur : jsstring) : list jsstring :=
  match s with
  | [] => [rev cur]
  | c :: rest =>
      if (c =? sep)%N then rev cur :: split_at sep rest []
      else split_at sep rest (c :: cur)
  end.

Definition split (s : jsstring) (sep : code_unit) : list jsstring :=
  split_at sep s [].

(** ** [String.prototype.includes] *)

Fixpoint startsWith (s pat : jsstring) : bool :=
  match pat, s with
  | [], _ => true
  | _ :: _, [] => false
  | p :: pat', c :: s' => (p =? c)%N && startsWith s' pat'
  end.

Fixpoint includes (s pat : jsstring) : bool :=
  startsWith s pat ||
  match s with
  | [] => false
  | _ :: s' => includes s' pat
  end.

End JsString.
Import JsString.

(* ================================================================== *)
(** * JavaScript numbers *)
(* ================================================================== *)

Module JsNumber.

(** A Number is an IEEE 754 binary64 value: a signed zero, a signed
    infinity, NaN, or a finite [(-1)^s * m * 2^e]. *)
Definition number : Type := spec_float.

Definition prec : Z := 53.
Definition emax : Z := 1024.

(** [/], [*] and [-] return the exact result rounded to the nearest
    double, ties to even. *)
Definition div : number -> number -> number := SFdiv prec emax.
Definition mul : number -> number -> number := SFmul prec emax.
Definition sub : number -> number -> number := SFsub prec emax.

(** The double nearest to [mantissa * 2^exponent]. *)
Definition of_dyadic (mantissa exponent : Z) (negative_zero : bool)
  : number :=
  binary_normalize prec emax mantissa exponent negative_zero.

(** An integer literal. *)
Definition of_Z (z : Z) : number := of_dyadic z 0 false.

(** A decimal literal with the value [n/d], as [3661.5] is [7323/2]: the
    double nearest to that value. *)
Definition ratio (n d : positive) : number :=
  div (S754_finite false n 0) (S754_finite false d 0).

Definition number_eqb (x y : number) : bool :=
  match x, y with
  | S754_zero a, S754_zero b => Bool.eqb a b
  | S754_infinity a, S754_infinity b => Bool.eqb a b
  | S754_nan, S754_nan => true
  | S754_finite a m e, S754_finite b n f =>
      Bool.eqb a b && Pos.eqb m n && Z.eqb e f
  | _, _ => false
  end.

(** Zero of either sign, or a positive finite number. *)
Definition nonnegative (x : number) : bool :=
  match x with
  | S754_zero _ => true
  | S754_finite false _ _ => true
  | _ => false
  end.

Definition positive_finite (x : number) : bool :=
  match x with
  | S754_finite false _ _ => true
  | _ => false
  end.

(** The exact value of a finite number (0 for the others). *)
Definition value (x : number) : Q :=
  match x with
  | S754_finite s m e =>
      let magnitude :=
        match e with
        | Zneg k => Zpos m # Pos.pow 2 k
        | _ => inject_Z (Zpos m * 2 ^ e)
        end in
      if s then Qopp magnitude else magnitude
  | _ => 0
  end.

(** What [Math.floor] and [Math.round] return: NaN, an infinity, or an
    integer with its sign ([Integer true 0] is -0). *)
Inductive integral : Type :=
| NaN
| Infinity (negative : bool)
| Integer (negative : bool) (magnitude : N).

Definition of_integer (z : Z) : integral :=
  Integer (z <? 0)%Z (Z.abs_N z).

(** An integral value as a Number again. *)
Definition to_number (i : integral) : number :=
  match i with
  | NaN => S754_nan
  | Infinity s => S754_infinity s
  | Integer s N0 => S754_zero s
  | Integer s (Npos n) => of_dyadic (if s then Zneg n else Zpos n) 0 false
  end.

(** [Math.floor]. *)
Definition Math_floor (x : number) : integral :=
  match x with
  | S754_nan => NaN
  | S754_infinity s => Infinity s
  | S754_zero s => Integer s 0
  | S754_finite _ _ _ => of_integer (Qfloor (value x))
  end.

(** [Math.round]: the nearest integer, ties towards +infinity; -0 for an
    argument in [-0.5, 0). *)
Definition Math_round (x : number) : integral :=
  match x with
  | S754_nan => NaN
  | S754_infinity s => Infinity s
  | S754_zero s => Integer s 0
  | S754_finite s _ _ =>
      let z := Qfloor (value x + (1 # 2)) in
      if (z =? 0)%Z then Integer s 0 else of_integer z
  end.

(** [m * 2^e] as a multiple of [2^common]. *)
Definition aligned (m : positive) (e common : Z) : Z :=
  Zpos m * 2 ^ (e - common).

(** The [%] operator: the exact remainder of the truncating division,
    with the sign of the dividend. *)
Definition rem (x y : number) : number :=
  match x, y with
  | S754_nan, _ | _, S754_nan => S754_nan
  | S754_infinity _, _ => S754_nan
  | _, S754_zero _ => S754_nan
  | _, S754_infinity _ => x
  | S754_zero _, _ => x
  | S754_finite sx mx ex, S754_finite _ my ey =>
      let common := Z.min ex ey in
      let r := Z.rem (aligned mx ex common) (aligned my ey common) in
      of_dyadic (if sx then Z.opp r else r) common sx
  end.

Fixpoint digits (d : Decimal.uint) : jsstring :=
  match d with
  | Decimal.Nil => []
  | Decimal.D0 r => 48%N :: digits r
  | Decimal.D1 r => 49%N :: digits r
  | Decimal.D2 r => 50%N :: digits r
  | Decimal.D3 r => 51%N :: digits r
  | Decimal.D4 r => 52%N :: digits r
  | Decimal.D5 r => 53%N :: digits r
  | Decimal.D6 r => 54%N :: digits r
  | Decimal.D7 r => 55%N :: digits r
  | Decimal.D8 r => 56%N :: digits r
  | Decimal.D9 r => 57%N :: digits r
  end.

Definition decimal (n : N) : jsstring := digits (N.to_uint n).

(** Two integers have the same nearest double. *)
Definition same_double (a b : N) : bool :=
  number_eqb (of_Z (Z.of_N a)) (of_Z (Z.of_N b)).

(** The integer with the fewest significant digits whose nearest double
    is that of [n]: the multiples of [10^p] next to [n] are tried from
    the largest [p] down; of two that fit, the closer one is taken, and
    the one with the even last digit when they are equally close. *)
Fixpoint shortest (n : N) (p : nat) : N :=
  let unit := (10 ^ N.of_nat p)%N in
  let lo := (n / unit * unit)%N in
  let hi := (lo + unit)%N in
  let lo_fits := negb (lo =? 0)%N && same_double lo n in
  let hi_fits := same_double hi n in
  let closest :=
    match (n - lo ?= hi - n)%N with
    | Lt => lo
    | Gt => hi
    | Eq => if N.even (lo / unit) then lo else hi
    end in
  if lo_fits && hi_fits then closest
  else if lo_fits then lo
  else if hi_fits then hi
  else match p with
       | O => n
       | S p' => shortest n p'
       end.

Fixpoint strip_zeros (reversed : jsstring) : jsstring :=
  match reversed with
  | 48%N :: rest => strip_zeros rest
  | _ => reversed
  end.

(** [d.ddde+x], the notation from 1e21 on. *)
Definition exponential (v : N) : jsstring :=
  let all := decimal v in
  let exponent := decimal (N.of_nat (List.length all - 1)) in
  match rev (strip_zeros (rev all)) with
  | [] => all
  | [d] => d :: 101%N :: 43%N :: exponent
  | d :: more => d :: 46%N :: more ++ 101%N :: 43%N :: exponent
  end.

(** Up to 2^53 every integer is a double, and its digits are printed as
    they are; beyond, the shortest digits that still denote the same
    double are printed, followed by zeros, or in exponential notation
    from 1e21 on. *)
Definition unsigned_toString (n : N) : jsstring :=
  if (n <=? 2 ^ 53)%N then decimal n
  else
    let v := shortest n (List.length (decimal n)) in
    if (v <? 10 ^ 21)%N then decimal v else exponential v.

(** [Number.prototype.toString] on the Number nearest to the integer
    [n]. *)
Definition toString (n : Z) : jsstring :=
  match n with
  | Z0 => [48%N]
  | Zpos p => unsigned_toString (Npos p)
  | Zneg p => 45%N :: unsigned_toString (Npos p)
  end.

(** [Number.prototype.toString] on the result of [Math.floor] or
    [Math.round]. *)
Definition integral_toString (i : integral) : jsstring :=
  match i with
  | NaN => lit "NaN"
  | Infinity false => lit "Infinity"
  | Infinity true => lit "-Infinity"
  | Integer _ N0 => [48%N]
  | Integer false (Npos p) => toString (Zpos p)
  | Integer true (Npos p) => toString (Zneg p)
  end.

End JsNumber.

(* ================================================================== *)
(** * App.tsx: the SRT encoder *)
(* ================================================================== *)

Section Encoder.

(** [formatTime], App.tsx lines 7-13. *)
Definition formatTime (totalSeconds : JsNumber.number) : jsstring :=
  let hours :=
    padStart (JsNumber.integral_toString
                (JsNumber.Math_floor
                   (JsNumber.div totalSeconds (JsNumber.of_Z 3600))))
             2 (lit "0") in
  let minutes :=
    padStart (JsNumber.integral_toString
                (JsNumber.Math_floor
                   (JsNumber.div
                      (JsNumber.rem totalSeconds (JsNumber.of_Z 3600))
                      (JsNumber.of_Z 60))))
             2 (lit "0") in
  let seconds :=
    padStart (JsNumber.integral_toString
                (JsNumber.Math_floor
                   (JsNumber.rem totalSeconds (JsNumber.of_Z 60))))
             2 (lit "0") in
  let milliseconds :=
    padStart (JsNumber.integral_toString
                (JsNumber.Math_round
                   (JsNumber.mul
                      (JsNumber.sub
                         totalSeconds
                         (JsNumber.to_number
                            (JsNumber.Math_floor totalSeconds)))
                      (JsNumber.of_Z 1000))))
             3 (lit "0") in
  hours ++ lit ":" ++ minutes ++ lit ":" ++ seconds ++ lit "," ++ milliseconds.


(** A JSON value, as [JSON.parse] builds it. *)
Inductive JsonValue : Type :=
| JNull
| JBool (b : bool)
| JNumber (n : Q)
| JString (s : jsstring)
| JObject (members : list (jsstring * JsonValue))
| JArray (elements : list JsonValue).

(** Modelled from the spec: the interface [TranscriptionSegment] of
    [types.ts], which is not among the sources; the spec's data model
    gives a segment a start and an end in seconds and a text.
    [extra] holds whatever further properties the object carries at run
    time (an identifier, say): the interface does not mention them and
    no code reads them. *)
Record TranscriptionSegment : Type := {
  start : JsNumber.number;
  end_ : JsNumber.number;
  text : jsstring;
  extra : list (jsstring * JsonValue)
}.

(** [Array.prototype.map], whose callback receives the element and its
    index. *)
Fixpoint Array_map_from (A B : Type) (callback : A -> nat -> B)
         (index : nat) (array : list A) : list B :=
  match array with
  | [] => []
  | element :: rest =>
      callback element index :: Array_map_from callback (S index) rest
  end.

Definition Array_map (A B : Type) (callback : A -> nat -> B)
           (array : list A) : list B :=
  Array_map_from callback 0 array.

(** The callback of [jsonToSrt], App.tsx lines 18-20. *)
Definition srtEntry (segment : TranscriptionSegment) (index : nat)
  : jsstring :=
  let startTime := formatTime (start segment) in
  let endTime := formatTime (end_ segment) in
  JsNumber.toString (Z.of_nat index + 1) ++ [LF]
    ++ startTime ++ lit " --> " ++ endTime ++ [LF]
    ++ trim (text segment) ++ [LF].

(** [jsonToSrt], App.tsx lines 16-22. *)
Definition jsonToSrt (transcription : list TranscriptionSegment)
  : jsstring :=
  join [LF] (Array_map srtEntry transcription).

End Encoder.

(* ================================================================== *)
(** * Promises, thrown values and the platform *)
(* ================================================================== *)

(** A thrown value either is an instance of [Error], with its message,
    or is something else (the event a [FileReader] rejects with, a
    string, ...). *)
Inductive Thrown : Type :=
| ErrorInstance (message : jsstring)
| NotAnError (description : jsstring).

Inductive Completion (A : Type) : Type :=
| Throw (reason : Thrown)
| Return (value : A).
Arguments Throw {A} reason.
Arguments Return {A} value.

Definition new_Error (message : jsstring) : Thrown := ErrorInstance message.

Record File : Type := {
  file_name : jsstring;
  file_type : jsstring
}.

Record InlineData : Type := {
  mimeType : jsstring;
  data : option jsstring   (* [None] is [undefined] *)
}.

Inductive Part : Type :=
| InlineDataPart (inlineData : InlineData)
| TextPart (part_text : jsstring).

Inductive Schema : Type :=
| TypeARRAY (items : Schema)
| TypeOBJECT (properties : list (jsstring * Schema))
             (required : list jsstring)
| TypeNUMBER (description : jsstring)
| TypeSTRING (description : jsstring).

Record GenerationConfig : Type := {
  responseMimeType : jsstring;
  responseSchema : Schema
}.

Record GenerateContentParameters : Type := {
  model : jsstring;
  contents : list Part;
  config : GenerationConfig
}.

(** The reply of the service; the client reads its [text] (line 124). *)
Record GenerateContentResponse : Type := {
  response_text : jsstring
}.

(** The value [JSON.parse] returns, as the client looks at it: it asks
    whether the value is an array and then casts it to
    [TranscriptionSegment[]] without inspecting the elements, so the
    elements of an array are kept at the type the cast gives them. *)
Inductive Reply : Type :=
| ReplyArray (elements : list TranscriptionSegment)
| ReplyObject (members : list (jsstring * JsonValue))
| ReplyString (s : jsstring)
| ReplyNumber (n : Q)
| ReplyBool (b : bool)
| ReplyNull.

Definition Array_isArray (value : Reply) : bool :=
  match value with
  | ReplyArray _ => true
  | _ => false
  end.

(** What lies outside the repository: the browser's [FileReader], the
    [ai.models.generateContent] call of the SDK and [JSON.parse]. *)
Record Platform : Type := {
  readAsDataURL : File -> Completion jsstring;
  generateContent : GenerateContentParameters
                    -> Completion GenerateContentResponse;
  JSON_parse : jsstring -> Completion Reply
}.

(** The observable effects of a run: the requests sent to the service,
    oldest first, and what was written with [console.error]. *)
Record Trace : Type := {
  requests : list GenerateContentParameters;
  console : list Thrown
}.

Definition no_trace : Trace := {| requests := []; console := [] |}.

(** An asynchronous computation, run to completion. *)
Definition Async (A : Type) : Type := Trace -> Completion A * Trace.

Definition resolve (A : Type) (a : A) : Async A := fun t => (Return a, t).

Definition reject (A : Type) (reason : Thrown) : Async A :=
  fun t => (Throw reason, t).

Definition settle (A : Type) (c : Completion A) : Async A := fun t => (c, t).

Arguments resolve {A} a.
Arguments reject {A} reason.
Arguments settle {A} c.

Definition await (A B : Type) (m : Async A) (k : A -> Async B) : Async B :=
  fun t =>
    match m t with
    | (Return a, t') => k a t'
    | (Throw reason, t') => (Throw reason, t')
    end.

Definition try_catch (A : Type) (body : Async A)
           (handler : Thrown -> Async A) : Async A :=
  fun t =>
    match body t with
    | (Return a, t') => (Return a, t')
    | (Throw reason, t') => handler reason t'
    end.

(** The trace once [request] has gone out. *)
Definition afterRequest (t : Trace) (request : GenerateContentParameters)
  : Trace :=
  {| requests := requests t ++ [request]; console := console t |}.

Definition send (P : Platform) (request : GenerateContentParameters)
  : Async GenerateContentResponse :=
  fun t => (generateContent P request, afterRequest t request).

Definition console_error (reason : Thrown) : Async unit :=
  fun t =>
    (Return tt,
     {| requests := requests t; console := console t ++ [reason] |}).

Declare Scope async_scope.
Delimit Scope async_scope with async.
Notation "x <- m ;; k" := (await m (fun x => k))
  (at level 61, m at next level, right associativity) : async_scope.
Notation "m ;;; k" := (await m (fun _ => k))
  (at level 61, right associativity) : async_scope.

(* ================================================================== *)
(** * services/geminiService.ts: the transcription client *)
(* ================================================================== *)

Section Client.

Variable P : Platform.

Local Open Scope async_scope.

Definition dq : jsstring := [34%N].

Definition COMMA : code_unit := 44%N.

(** [fileToBase64], lines 12-24.  The promise resolves with the second
    piece of the data URL split at its commas, and rejects with the
    reader's error event. *)
Definition fileToBase64 (file : File) : Async (option jsstring) :=
  result <- settle (readAsDataURL P file) ;;
  let base64Data := nth_error (split result COMMA) 1 in
  resolve base64Data.

(** The template literal of lines 39-59. *)
Definition prompt_with_reference (referenceText : jsstring) : jsstring :=
  join [LF] [
  nil;
  lit "You are an expert audio transcriptionist specializing in "
    ++ lit "Japanese. Your task is to transcribe the provided audio and "
    ++ lit "generate accurate, synchronized subtitles.";
  nil;
  lit "**CRITICAL INSTRUCTION:** You have been given a reference "
    ++ lit "text. You MUST use this text to ensure the transcription is "
    ++ lit "as accurate as possible. Align the audio transcription with "
    ++ lit "the provided text, correcting any misheard words, names, or "
    ++ lit "phrases to match the reference text. The final "
    ++ lit "transcription's wording MUST match the reference text.";
  nil;
  lit "--- REFERENCE TEXT START ---"
  ] ++ [LF] ++ referenceText ++ [LF] ++ join [LF] [
  lit "--- REFERENCE TEXT END ---";
  nil;
  lit "**OUTPUT FORMAT:**";
  lit "The output must be a valid JSON array of objects. Each "
    ++ lit "object represents a subtitle segment and must contain:";
  lit "1. " ++ dq ++ lit "start" ++ dq
    ++ lit ": The starting time of the segment in seconds (number).";
  lit "2. " ++ dq ++ lit "end" ++ dq
    ++ lit ": The ending time of the segment in seconds (number).";
  lit "3. " ++ dq ++ lit "text" ++ dq
    ++ lit ": The transcribed text for that segment (string), corrected "
    ++ lit "according to the reference text.";
  nil;
  lit "**IMPORTANT EXAMPLE FORMAT:**";
  lit "[";
  lit "  { " ++ dq ++ lit "start" ++ dq ++ lit ": 0.52, " ++ dq
    ++ lit "end" ++ dq ++ lit ": 2.88, " ++ dq ++ lit "text" ++ dq
    ++ lit ": " ++ dq ++ lit "京都で、奇跡が起きた。" ++ dq ++ lit " },";
  lit "  { " ++ dq ++ lit "start" ++ dq ++ lit ": 3.1, " ++ dq
    ++ lit "end" ++ dq ++ lit ": 5.4, " ++ dq ++ lit "text" ++ dq
    ++ lit ": " ++ dq ++ lit "天皇陛下と雅子さまが姿を現した瞬間、雨が 止まった。" ++ dq ++ lit " }";
  lit "]";
  lit "    "
  ].

(** The template literal of lines 61-87. *)
Definition prompt_without_reference : jsstring :=
  join [LF] [
  nil;
  lit "      You are an expert audio transcriptionist, "
    ++ lit "particularly for the Japanese language. Your task is to "
    ++ lit "transcribe the provided audio file into text and provide "
    ++ lit "accurate timestamps for each segment.";
  lit "      The output must be a valid JSON array of objects.";
  lit "      Each object in the array represents a single subtitle "
    ++ lit "entry and must contain three properties:";
  lit "      1. " ++ dq ++ lit "start" ++ dq
    ++ lit ": The starting time of the segment in seconds (number).";
  lit "      2. " ++ dq ++ lit "end" ++ dq
    ++ lit ": The ending time of the segment in seconds (number).";
  lit "      3. " ++ dq ++ lit "text" ++ dq
    ++ lit ": The transcribed text for that segment (string).";
  nil;
  lit "      **IMPORTANT**: You must ensure the following names "
    ++ lit "are transcribed correctly. Pay close attention to these "
    ++ lit "specific names and correct any potential mis-transcriptions "
    ++ lit "in the audio:";
  lit "      - 秋篠宮様";
  lit "      - 紀子様";
  lit "      - 悠仁様";
  lit "      - 佳子様";
  lit "      - 眞子様";
  lit "      - 美智子様";
  lit "      - 雅子様 (This is the correct kanji for Empress Masako. "
    ++ lit "Do NOT use " ++ dq ++ lit "正子様" ++ dq ++ lit ".)";
  lit "      - 愛子様";
  lit "      - 徳仁天皇";
  lit "      - 久子様";
  lit "      - 信子様";
  nil;
  lit "      Example format:";
  lit "      [";
  lit "        { " ++ dq ++ lit "start" ++ dq ++ lit ": 0.52, " ++ dq
    ++ lit "end" ++ dq ++ lit ": 2.88, " ++ dq ++ lit "text" ++ dq
    ++ lit ": " ++ dq ++ lit "Hello, and welcome to our podcast." ++ dq
    ++ lit " },";
  lit "        { " ++ dq ++ lit "start" ++ dq ++ lit ": 3.1, " ++ dq
    ++ lit "end" ++ dq ++ lit ": 5.4, " ++ dq ++ lit "text" ++ dq
    ++ lit ": " ++ dq ++ lit "Today we'll be discussing the future of AI."
    ++ dq ++ lit " }";
  lit "      ]";
  lit "    "
  ].

(** The delimiter lines of the first template (lines 44 and 46). *)
Definition REFERENCE_TEXT_START : jsstring :=
  lit "--- REFERENCE TEXT START ---".

Definition REFERENCE_TEXT_END : jsstring :=
  lit "--- REFERENCE TEXT END ---".

(** The names listed by the second template (lines 70-80). *)
Definition properNouns : list jsstring :=
  [ lit "秋篠宮様"; lit "紀子様"; lit "悠仁様"; lit "佳子様"; lit "眞子様";
    lit "美智子様"; lit "雅子様"; lit "愛子様"; lit "徳仁天皇"; lit "久子様";
    lit "信子様" ].

(** The condition of line 38: [null] and the empty string are falsy. *)
Definition truthy (referenceText : option jsstring) : bool :=
  match referenceText with
  | None => false
  | Some [] => false
  | Some (_ :: _) => true
  end.

(** The string a template literal substitutes for a [string | null]. *)
Definition ToString (referenceText : option jsstring) : jsstring :=
  match referenceText with
  | Some s => s
  | None => lit "null"
  end.

(** Lines 36-88. *)
Definition buildPrompt (referenceText : option jsstring) : jsstring :=
  if truthy referenceText
  then prompt_with_reference (ToString referenceText)
  else prompt_without_reference.

(** Lines 100-120. *)
Definition transcriptionSchema : Schema :=
  TypeARRAY
    (TypeOBJECT
       [ (lit "start",
          TypeNUMBER (lit "The starting time of the segment in seconds."));
         (lit "end",
          TypeNUMBER (lit "The ending time of the segment in seconds."));
         (lit "text",
          TypeSTRING (lit "The transcribed text of the segment.")) ]
       [ lit "start"; lit "end"; lit "text" ]).

(** The argument of [generateContent], lines 95-122. *)
Definition buildRequest (audioFile : File) (base64Audio : option jsstring)
           (referenceText : option jsstring) : GenerateContentParameters :=
  let audioPart :=
    InlineDataPart {| mimeType := file_type audioFile;
                      data := base64Audio |} in
  let prompt := buildPrompt referenceText in
  let textPart := TextPart prompt in
  {| model := lit "gemini-2.5-pro";
     contents := [audioPart; textPart];
     config := {| responseMimeType := lit "application/json";
                  responseSchema := transcriptionSchema |} |}.

(** The text parts of a request. *)
Definition instructionText (request : GenerateContentParameters)
  : list jsstring :=
  flat_map (fun part => match part with
                        | TextPart t => [t]
                        | InlineDataPart _ => []
                        end) (contents request).

(** The [catch] clause, lines 133-139. *)
Definition rethrow (error : Thrown) : Async (list TranscriptionSegment) :=
  console_error error ;;;
  match error with
  | ErrorInstance message =>
      reject (new_Error (lit "Failed to generate transcription: "
                           ++ message))
  | NotAnError _ =>
      reject (new_Error
                (lit "An unknown error occurred during transcription."))
  end.

(** [generateTranscription], lines 26-140. *)
Definition generateTranscription (audioFile : File)
           (referenceText : option jsstring)
  : Async (list TranscriptionSegment) :=
  base64Audio <- fileToBase64 audioFile ;;
  try_catch
    (response <- send P (buildRequest audioFile base64Audio referenceText) ;;
     let jsonString := response_text response in
     transcriptionData <- settle (JSON_parse P jsonString) ;;
     match transcriptionData with
     | ReplyArray elements => resolve elements
     | _ => reject (new_Error (lit "API response is not a valid array."))
     end)
    rethrow.

End Client.

(* ================================================================== *)
(** * App.tsx: the component state and [handleGenerateSrt] *)
(* ================================================================== *)

Record AppState : Type := {
  audioFile : option File;
  referenceText : option jsstring;
  srtContent : jsstring;
  isLoading : bool;
  error : option jsstring
}.

Definition setSrtContent (v : jsstring) (st : AppState) : AppState :=
  {| audioFile := audioFile st; referenceText := referenceText st;
     srtContent := v; isLoading := isLoading st; error := error st |}.

Definition setIsLoading (v : bool) (st : AppState) : AppState :=
  {| audioFile := audioFile st; referenceText := referenceText st;
     srtContent := srtContent st; isLoading := v; error := error st |}.

Definition setError (v : option jsstring) (st : AppState) : AppState :=
  {| audioFile := audioFile st; referenceText := referenceText st;
     srtContent := srtContent st; isLoading := isLoading st; error := v |}.

(** The initial state of the component, lines 44-48. *)
Definition initialState : AppState :=
  {| audioFile := None; referenceText := None; srtContent := [];
     isLoading := false; error := None |}.

(** What the [catch] clause of lines 86-88 shows. *)
Definition errorMessage (err : Thrown) : jsstring :=
  match err with
  | ErrorInstance message => message
  | NotAnError _ => lit "An unexpected error occurred."
  end.

(** [handleGenerateSrt], lines 76-92: the state after the handler has
    run to completion, with the effects of the run. *)
Definition handleGenerateSrt (P : Platform) (st : AppState) (t : Trace)
  : AppState * Trace :=
  match audioFile st with
  | None => (st, t)
  | Some file =>
      let st1 := setSrtContent [] (setError None (setIsLoading true st)) in
      match generateTranscription P file (referenceText st) t with
      | (Return transcriptionResult, t') =>
          let srt := jsonToSrt transcriptionResult in
          (setIsLoading false (setSrtContent srt st1), t')
      | (Throw err, t') =>
          (setIsLoading false (setError (Some (errorMessage err)) st1), t')
      end
  end.

(* ================================================================== *)
(** * The specification's wording of the encoder *)
(* ================================================================== *)

Module Spec.

Local Open Scope Q_scope.

Definition floor (x : Q) : Z := Qfloor x.

(** [x mod m], the remainder of the floored division. *)
Definition modulo (x m : Q) : Q := x - m * inject_Z (floor (x / m)).

(** The nearest integer, a half rounding up. *)
Definition round (x : Q) : Z :=
  if Qle_bool (1 # 2) (x - inject_Z (floor x))
  then (floor x + 1)%Z else floor x.

(** The decimal digits of [n], with zeros in front up to [width]. *)
Definition zero_padded (width : nat) (n : Z) : jsstring :=
  let d := JsNumber.toString n in
  repeat 48%N (width - List.length d) ++ d.

(** [HH:MM:SS,mmm] *)
Definition format_timestamp (seconds : Q) : jsstring :=
  let hours := floor (seconds / 3600) in
  let minutes := floor (modulo seconds 3600 / 60) in
  let secs := floor (modulo seconds 60) in
  let millis := round ((seconds - inject_Z (floor seconds)) * 1000) in
  zero_padded 2 hours ++ lit ":" ++ zero_padded 2 minutes ++ lit ":"
    ++ zero_padded 2 secs ++ lit "," ++ zero_padded 3 millis.

(** ** The same algorithm on doubles

    The two divisions, the subtraction and the multiplication are the
    operations on doubles; the floor, the modulo and the rounding are
    the mathematical ones, taken on the exact value of a double. *)

Definition floor_double (x : JsNumber.number) : JsNumber.integral :=
  match x with
  | S754_finite _ _ _ => JsNumber.of_integer (floor (JsNumber.value x))
  | S754_zero _ => JsNumber.of_integer 0
  | S754_infinity s => JsNumber.Infinity s
  | S754_nan => JsNumber.NaN
  end.

Definition round_double (x : JsNumber.number) : JsNumber.integral :=
  match x with
  | S754_finite _ _ _ => JsNumber.of_integer (round (JsNumber.value x))
  | S754_zero _ => JsNumber.of_integer 0
  | S754_infinity s => JsNumber.Infinity s
  | S754_nan => JsNumber.NaN
  end.

(** [x mod m] for a positive [m]: [x - m * floor (x / m)], computed on
    the numerators of [x] and [m] over a common power of two. *)
Definition modulo_double (x m : JsNumber.number) : JsNumber.number :=
  match x, m with
  | S754_finite sx mx ex, S754_finite false mm em =>
      let common := Z.min ex em in
      let X := (if sx then - JsNumber.aligned mx ex common
                else JsNumber.aligned mx ex common)%Z in
      let M := JsNumber.aligned mm em common in
      JsNumber.of_dyadic (X - M * (X / M))%Z common false
  | S754_zero _, S754_finite false _ _ => S754_zero false
  | _, _ => S754_nan
  end.

(** A component as JavaScript prints it, with zeros in front up to
    [width]. *)
Definition padded (width : nat) (i : JsNumber.integral) : jsstring :=
  let d := JsNumber.integral_toString i in
  repeat 48%N (width - List.length d) ++ d.

Definition format_timestamp_double (seconds : JsNumber.number) : jsstring :=
  let hours := floor_double (JsNumber.div seconds (JsNumber.of_Z 3600)) in
  let minutes :=
    floor_double
      (JsNumber.div (modulo_double seconds (JsNumber.of_Z 3600))
                    (JsNumber.of_Z 60)) in
  let secs := floor_double (modulo_double seconds (JsNumber.of_Z 60)) in
  let millis :=
    round_double
      (JsNumber.mul
         (JsNumber.sub seconds (JsNumber.to_number (floor_double seconds)))
         (JsNumber.of_Z 1000)) in
  padded 2 hours ++ lit ":" ++ padded 2 minutes ++ lit ":"
    ++ padded 2 secs ++ lit "," ++ padded 3 millis.

Definition line (content : jsstring) : jsstring := content ++ [LF].

Definition blank_line : jsstring := line [].

(** The three lines of the entry at 0-based [position]. *)
Definition entry (position : nat) (startTime endTime : JsNumber.number)
           (content : jsstring) : jsstring :=
  line (JsNumber.toString (Z.of_nat (position + 1)))
    ++ line (formatTime startTime ++ lit " --> " ++ formatTime endTime)
    ++ line (trim content).

Fixpoint encode_from (position : nat) (segments : list TranscriptionSegment)
  : jsstring :=
  match segments with
  | [] => []
  | segment :: rest =>
      entry position (start segment) (end_ segment) (text segment)
        ++ match rest with
           | [] => []
           | _ :: _ => blank_line ++ encode_from (S position) rest
           end
  end.

Definition encode (segments : list TranscriptionSegment) : jsstring :=
  encode_from 0 segments.

End Spec.

(** The segment with its text trimmed beforehand. *)
Definition trimmed (segment : TranscriptionSegment) : TranscriptionSegment :=
  {| start := start segment; end_ := end_ segment;
     text := trim (text segment); extra := extra segment |}.

(** The three properties of a segment the interface declares. *)
Definition declared (segment : TranscriptionSegment)
  : JsNumber.number * JsNumber.number * jsstring :=
  (start segment, end_ segment, text segment).

(** The field after the comma of a time stamp. *)
Definition millisecondsField (stamp : jsstring) : jsstring :=
  last (split stamp COMMA) [].

(** A text occurs in another one. *)
Definition occurs_in (piece whole : jsstring) : Prop :=
  exists before after, whole = before ++ piece ++ after.

(** The reference text sits on the lines between the two delimiter
    lines. *)
Definition reference_embedded (prompt reference : jsstring) : Prop :=
  exists before after,
    prompt = before ++ REFERENCE_TEXT_START ++ [LF] ++ reference ++ [LF]
                    ++ REFERENCE_TEXT_END ++ after.

(** The request a call of [generateTranscription] sends once the audio
    file has been read as [dataUrl]. *)
Definition requestFor (audio : File) (dataUrl : jsstring)
           (reference : option jsstring) : GenerateContentParameters :=
  buildRequest audio (nth_error (split dataUrl COMMA) 1) reference.

(** ** Sample inputs *)

Module Sample.

Definition audio : File :=
  {| file_name := lit "talk.mp3"; file_type := lit "audio/mpeg" |}.

Definition dataUrl : jsstring := lit "data:audio/mpeg;base64,SUQzBAA=".

(** A platform that reads every file as [dataUrl] and whose service and
    parser answer as given. *)
Definition platform (answer : Completion GenerateContentResponse)
           (parsed : Completion Reply) : Platform :=
  {| readAsDataURL := fun _ => Return dataUrl;
     generateContent := fun _ => answer;
     JSON_parse := fun _ => parsed |}.

Definition response : GenerateContentResponse :=
  {| response_text := lit "{}" |}.

Definition segments : list TranscriptionSegment :=
  [ {| start := JsNumber.ratio 13 25; end_ := JsNumber.ratio 72 25;
       text := lit "  Hello.  "; extra := [(lit "id", JNumber 7)] |};
    {| start := JsNumber.ratio 31 10; end_ := JsNumber.ratio 27 5;
       text := lit "World"; extra := [] |} ].

Definition ready : AppState :=
  {| audioFile := Some audio; referenceText := None;
     srtContent := []; isLoading := false; error := None |}.

End Sample.

(* ================================================================== *)
(** * App.tsx: the other handlers and the rendering conditions *)
(* ================================================================== *)

Definition setAudioFile (v : option File) (st : AppState) : AppState :=
  {| audioFile := v; referenceText := referenceText st;
     srtContent := srtContent st; isLoading := isLoading st;
     error := error st |}.

Definition setReferenceText (v : option jsstring) (st : AppState)
  : AppState :=
  {| audioFile := audioFile st; referenceText := v;
     srtContent := srtContent st; isLoading := isLoading st;
     error := error st |}.

(** [handleFileChange], lines 50-57; [file] is [e.target.files?.[0]]. *)
Definition handleFileChange (file : option File) (st : AppState)
  : AppState :=
  match file with
  | Some f => setError None (setSrtContent [] (setAudioFile (Some f) st))
  | None => st
  end.

(** [handleTextFileChange], lines 59-74: what the handler itself does.
    With a file it only starts a [FileReader]; the state changes when
    the reader calls back. *)
Definition handleTextFileChange (file : option File) (st : AppState)
  : AppState :=
  match file with
  | Some _ => st
  | None => setReferenceText None st
  end.

(** [reader.onload], lines 63-65. *)
Definition reader_onload (result : jsstring) (st : AppState) : AppState :=
  setReferenceText (Some result) st.

(** [reader.onerror], lines 66-69. *)
Definition reader_onerror (st : AppState) : AppState :=
  setReferenceText None
    (setError (Some (lit "Failed to read the reference text file.")) st).

(** The two halves of [handleGenerateSrt] around its [await]: lines 79-81
    run before the call goes out, lines 84-91 once it has settled. *)
Definition beginGenerate (st : AppState) : AppState :=
  setSrtContent [] (setError None (setIsLoading true st)).

Definition endGenerate (outcome : Completion (list TranscriptionSegment))
           (st : AppState) : AppState :=
  match outcome with
  | Return transcriptionResult =>
      setIsLoading false (setSrtContent (jsonToSrt transcriptionResult) st)
  | Throw err => setIsLoading false (setError (Some (errorMessage err)) st)
  end.

Definition DOT : code_unit := 46%N.

(** The file name of the download, lines 101-102:
    [name.split('.').slice(0, -1).join('.')], replaced by [subtitles]
    when it is empty, followed by [.srt]. *)
Definition downloadName (name : jsstring) : jsstring :=
  let fileNameWithoutExtension :=
    join [DOT] (removelast (split name DOT)) in
  match fileNameWithoutExtension with
  | [] => lit "subtitles"
  | _ :: _ => fileNameWithoutExtension
  end ++ lit ".srt".

(** What a click on the download button hands to the browser. *)
Record Download : Type := {
  download : jsstring;
  blobParts : list jsstring;
  blobType : jsstring
}.

(** [handleDownloadSrt], lines 94-107. *)
Definition handleDownloadSrt (st : AppState) : option Download :=
  match srtContent st, audioFile st with
  | _ :: _, Some file =>
      Some {| download := downloadName (file_name file);
              blobParts := [srtContent st];
              blobType := lit "text/plain;charset=utf-8" |}
  | _, _ => None
  end.

(** The [disabled] attribute of the generate button, line 152. *)
Definition generateDisabled (st : AppState) : bool :=
  match audioFile st with
  | None => true
  | Some _ => isLoading st
  end.

(** ** The component as a reactive system

    The component with the number of transcription calls in flight.
    An event is one thing the browser does to the component: a change
    of either file input, a callback of the text reader, a click on the
    generate button (which does nothing while the button is disabled),
    or the settling of a call in flight. *)
Record Ui : Type := {
  app : AppState;
  inFlight : nat
}.

Inductive Event : Type :=
| ChooseAudio (file : option File)
| ChooseText (file : option File)
| TextLoaded (result : jsstring)
| TextFailed
| ClickGenerate
| Settled (outcome : Completion (list TranscriptionSegment)).

Definition react (u : Ui) (e : Event) : Ui :=
  match e with
  | ChooseAudio file =>
      {| app := handleFileChange file (app u); inFlight := inFlight u |}
  | ChooseText file =>
      {| app := handleTextFileChange file (app u); inFlight := inFlight u |}
  | TextLoaded result =>
      {| app := reader_onload result (app u); inFlight := inFlight u |}
  | TextFailed =>
      {| app := reader_onerror (app u); inFlight := inFlight u |}
  | ClickGenerate =>
      if generateDisabled (app u) then u
      else {| app := beginGenerate (app u); inFlight := S (inFlight u) |}
  | Settled outcome =>
      match inFlight u with
      | O => u
      | S n => {| app := endGenerate outcome (app u); inFlight := n |}
      end
  end.

Definition initialUi : Ui := {| app := initialState; inFlight := 0 |}.

Definition after (events : list Event) : Ui :=
  fold_left react events initialUi.

(** The names of the properties a schema requires of an element. *)
Definition requiredOfItems (schema : Schema) : list jsstring :=
  match schema with
  | TypeARRAY (TypeOBJECT _ required) => required
  | _ => []
  end.

(** What every reachable state of the component satisfies. *)
Definition consistent (u : Ui) : Prop :=
  (inFlight u <= 1)%nat
  /\ (isLoading (app u) = true <-> inFlight u = 1%nat)
  /\ (inFlight u = 1%nat \/ srtContent (app u) <> [] ->
      audioFile (app u) <> None).

(* ================================================================== *)
(** * Facts about the JavaScript library functions *)
(* ================================================================== *)

Unset Implicit Arguments.

(** Numbers are printed and time stamps formatted by evaluation only:
    the proofs below leave both folded. *)
Arguments formatTime : simpl never.
Arguments JsNumber.toString : simpl never.
Opaque JsNumber.unsigned_toString.

Section NumberFacts.

Local Open Scope Q_scope.

Lemma Qfloor_unique (x : Q) (n : Z) :
  inject_Z n <= x -> x < inject_Z (n + 1) -> Qfloor x = n.
Proof.
  intros Hlo Hhi.
  pose proof (Qfloor_le x) as Hf.
  pose proof (Qlt_floor x) as Hc.
  assert (inject_Z n < inject_Z (Qfloor x + 1)) as H1 by lra.
  assert (inject_Z (Qfloor x) < inject_Z (n + 1)) as H2 by lra.
  rewrite <- Zlt_Qlt in H1, H2. lia.
Qed.

Lemma Math_round_nearest (x : Q) : Qfloor (x + (1 # 2)) = Spec.round x.
Proof.
  unfold Spec.round, Spec.floor.
  pose proof (Qfloor_le x) as Hf.
  pose proof (Qlt_floor x) as Hc.
  rewrite inject_Z_plus in Hc.
  destruct (Qle_bool (1 # 2) (x - inject_Z (Qfloor x))) eqn:E.
  - apply Qle_bool_iff in E.
    apply Qfloor_unique; rewrite !inject_Z_plus;
      change (inject_Z 1) with 1 in *; lra.
  - assert (~ (1 # 2) <= x - inject_Z (Qfloor x)) as E'.
    { intro H. apply Qle_bool_iff in H. congruence. }
    apply Qfloor_unique; rewrite ?inject_Z_plus;
      change (inject_Z 1) with 1 in *; lra.
Qed.

End NumberFacts.

Section DoubleFacts.

Lemma aligned_positive (m : positive) (e common : Z) :
  (common <= e)%Z -> (0 < JsNumber.aligned m e common)%Z.
Proof.
  intros H. unfold JsNumber.aligned.
  apply Z.mul_pos_pos; [reflexivity |].
  apply Z.pow_pos_nonneg; lia.
Qed.

(** On a non-negative dividend and a positive divisor, [%] is the
    mathematical modulo. *)
Lemma rem_modulo_double (x m : JsNumber.number) :
  JsNumber.nonnegative x = true -> x <> S754_zero true ->
  JsNumber.positive_finite m = true ->
  JsNumber.rem x m = Spec.modulo_double x m.
Proof.
  destruct x as [[|] | | | [|] mx ex]; try discriminate;
    destruct m as [| | | [|] mm em]; try discriminate; intros _ Hx _;
    try congruence; try reflexivity.
  unfold JsNumber.rem, Spec.modulo_double. cbv zeta.
  pose proof (aligned_positive mx ex (Z.min ex em) (Z.le_min_l ex em)) as HX.
  pose proof (aligned_positive mm em (Z.min ex em) (Z.le_min_r ex em)) as HM.
  rewrite Z.rem_mod_nonneg by lia.
  rewrite Z.mod_eq by lia. reflexivity.
Qed.

Lemma Math_floor_printed (x : JsNumber.number) :
  JsNumber.integral_toString (JsNumber.Math_floor x)
  = JsNumber.integral_toString (Spec.floor_double x).
Proof. now destruct x as [[|] | | |]. Qed.

Lemma Math_floor_nonnegative (x : JsNumber.number) :
  JsNumber.nonnegative x = true -> x <> S754_zero true ->
  JsNumber.Math_floor x = Spec.floor_double x.
Proof.
  destruct x as [[|] | | | [|] m e]; try discriminate; intros _ H;
    try congruence; reflexivity.
Qed.

Lemma Math_round_printed (x : JsNumber.number) :
  JsNumber.integral_toString (JsNumber.Math_round x)
  = JsNumber.integral_toString (Spec.round_double x).
Proof.
  destruct x as [[|] | | | s m e]; try reflexivity.
  unfold JsNumber.Math_round, Spec.round_double. cbv zeta.
  rewrite Math_round_nearest.
  destruct (Z.eqb_spec (Spec.round (JsNumber.value (S754_finite s m e))) 0)
    as [-> | _]; [now destruct s | reflexivity].
Qed.

End DoubleFacts.

Lemma firstn_zeros (k : nat) (c : code_unit) :
  firstn k (List.concat (repeat [c] k)) = repeat c k.
Proof.
  induction k as [|k IH]; simpl; [reflexivity | now rewrite IH].
Qed.

Lemma padStart_zero (d : jsstring) (width : nat) :
  padStart d width (lit "0") = repeat 48%N (width - List.length d) ++ d.
Proof.
  unfold padStart. change (lit "0") with [48%N].
  destruct (width <=? List.length d)%nat eqn:E.
  - apply Nat.leb_le in E.
    replace (width - List.length d)%nat with 0%nat by lia.
    reflexivity.
  - now rewrite firstn_zeros.
Qed.

Section TrimFacts.

Lemma trimEnd_keeps_head (c : code_unit) (s : jsstring) :
  is_white_space c = false -> trimEnd (c :: s) = c :: trimEnd s.
Proof.
  intros Hc. simpl. destruct (trimEnd s); [now rewrite Hc | reflexivity].
Qed.

Lemma trimEnd_cons_kept (c k : code_unit) (s kept : jsstring) :
  trimEnd s = k :: kept -> trimEnd (c :: s) = c :: k :: kept.
Proof. intros E. simpl. now rewrite E. Qed.

Lemma trimEnd_idempotent (s : jsstring) : trimEnd (trimEnd s) = trimEnd s.
Proof.
  induction s as [|c s IH]; [reflexivity |].
  destruct (trimEnd s) as [|k kept] eqn:E.
  - simpl. rewrite E.
    destruct (is_white_space c) eqn:Hc; [reflexivity |].
    simpl. now rewrite Hc.
  - rewrite (trimEnd_cons_kept c k s kept E).
    apply trimEnd_cons_kept. exact IH.
Qed.

Lemma trimStart_head (s : jsstring) :
  trimStart s = [] \/
  exists c rest, trimStart s = c :: rest /\ is_white_space c = false.
Proof.
  induction s as [|c s IH]; [now left |].
  simpl. destruct (is_white_space c) eqn:Hc; [exact IH |].
  right. now exists c, s.
Qed.

Lemma trimStart_fixed (c : code_unit) (s : jsstring) :
  is_white_space c = false -> trimStart (c :: s) = c :: s.
Proof. intros Hc. simpl. now rewrite Hc. Qed.

Lemma trim_idempotent (s : jsstring) : trim (trim s) = trim s.
Proof.
  unfold trim.
  destruct (trimStart_head s) as [E | (c & rest & E & Hc)]; rewrite E.
  - reflexivity.
  - rewrite (trimEnd_keeps_head c rest Hc), (trimStart_fixed c _ Hc).
    rewrite <- (trimEnd_keeps_head c rest Hc). apply trimEnd_idempotent.
Qed.

End TrimFacts.

Section IncludesFacts.

Lemma startsWith_prefix (pat : jsstring) :
  forall s, startsWith s pat = true <-> exists after, s = pat ++ after.
Proof.
  induction pat as [|p pat IH]; intros s.
  - split; [intros _; now exists s | now destruct s].
  - destruct s as [|c s]; simpl.
    + split; [discriminate | intros (after & H); discriminate].
    + rewrite andb_true_iff, N.eqb_eq, IH. split.
      * intros (-> & after & ->). now exists after.
      * intros (after & H). injection H as -> ->. split; [reflexivity |].
        now exists after.
Qed.

Lemma includes_occurs (pat s : jsstring) :
  includes s pat = true <-> occurs_in pat s.
Proof.
  unfold occurs_in. induction s as [|c s IH].
  - change (includes [] pat) with (startsWith [] pat || false).
    rewrite orb_false_r, startsWith_prefix. split.
    + intros (after & H). now exists [], after.
    + intros (before & after & H). exists after.
      destruct before; [exact H | discriminate].
  - change (includes (c :: s) pat)
      with (startsWith (c :: s) pat || includes s pat).
    rewrite orb_true_iff, startsWith_prefix, IH. split.
    + intros [(after & H) | (before & after & H)].
      * now exists [], after.
      * exists (c :: before), after. now rewrite H.
    + intros ([|b before] & after & H).
      * left. now exists after.
      * right. injection H as _ H. now exists before, after.
Qed.

Lemma includes_absent (pat s : jsstring) :
  includes s pat = false -> ~ occurs_in pat s.
Proof.
  intros H Hocc. apply includes_occurs in Hocc. congruence.
Qed.

End IncludesFacts.

Section ArrayFacts.

Variables A B : Type.
Variable callback : A -> nat -> B.

Lemma Array_map_from_length (index : nat) (array : list A) :
  List.length (Array_map_from callback index array) = List.length array.
Proof.
  revert index. induction array as [|a array IH]; intros index; simpl;
    [reflexivity | now rewrite IH].
Qed.

Lemma Array_map_from_nth (array : list A) :
  forall index i,
    nth_error (Array_map_from callback index array) i
    = option_map (fun a => callback a (index + i)) (nth_error array i).
Proof.
  induction array as [|a array IH]; intros index i.
  - now destruct i.
  - destruct i as [|i]; simpl.
    + now rewrite Nat.add_0_r.
    + rewrite IH. now rewrite Nat.add_succ_r.
Qed.

Lemma Array_map_from_app (array : list A) (a : A) :
  forall index,
    Array_map_from callback index (array ++ [a])
    = Array_map_from callback index array
        ++ [callback a (index + List.length array)].
Proof.
  induction array as [|x array IH]; intros index; simpl.
  - now rewrite Nat.add_0_r.
  - rewrite IH. now rewrite Nat.add_succ_r.
Qed.

End ArrayFacts.

Lemma join_snoc (sep : jsstring) (parts : list jsstring) (p : jsstring) :
  exists before, join sep (parts ++ [p]) = before ++ p.
Proof.
  induction parts as [|q parts (before & IH)].
  - now exists [].
  - exists (q ++ sep ++ before).
    change ((q :: parts) ++ [p]) with (q :: (parts ++ [p])).
    destruct (parts ++ [p]) as [|r rs] eqn:E.
    + now destruct parts.
    + change (join sep (q :: r :: rs)) with (q ++ sep ++ join sep (r :: rs)).
      rewrite IH. now rewrite <- !app_assoc.
Qed.

(* ================================================================== *)
(** * The SRT encoder *)
(* ================================================================== *)

Lemma formatTime_refines (s : JsNumber.number) :
  JsNumber.nonnegative s = true ->
  formatTime s = Spec.format_timestamp_double s.
Proof.
  intros Hs.
  destruct (JsNumber.number_eqb s (S754_zero true)) eqn:Hzero.
  - destruct s as [[|] | | |]; try discriminate Hzero.
    vm_compute. reflexivity.
  - assert (s <> S754_zero true) as Hne by (intros ->; discriminate Hzero).
    unfold formatTime, Spec.format_timestamp_double, Spec.padded.
    rewrite !padStart_zero.
    rewrite !(rem_modulo_double s _ Hs Hne) by reflexivity.
    rewrite !Math_floor_printed, Math_round_printed.
    rewrite (Math_floor_nonnegative s Hs Hne).
    reflexivity.
Qed.

(** C1, as amended.  On every non-negative number of seconds (a zero or
    a positive finite double) [formatTime] returns what the algorithm of
    the specification builds when its two divisions, its subtraction
    and its multiplication are the operations on doubles, each rounded
    to the nearest double, and its floor, modulo and rounding are the
    mathematical ones: hours are the floor of [s/3600], minutes the
    floor of [(s mod 3600)/60], seconds the floor of [s mod 60],
    milliseconds the rounding of the fractional part times 1000, each
    printed as JavaScript prints a number and joined as [HH:MM:SS,mmm]
    with zeros in front up to 2, 2, 2 and 3 code units; and it maps 0
    to [00:00:00,000] and 3661.5 to [01:01:01,500]. *)
Theorem formatTime_algorithm :
  (forall s : JsNumber.number,
      JsNumber.nonnegative s = true ->
      formatTime s = Spec.format_timestamp_double s)
  /\ formatTime (JsNumber.of_Z 0) = lit "00:00:00,000"
  /\ formatTime (JsNumber.ratio 7323 2) = lit "01:01:01,500".
Proof.
  split; [exact formatTime_refines |].
  split.
  - vm_compute. reflexivity.
  - vm_compute. reflexivity.
Qed.

Lemma formatTime_algorithm_witness :
  formatTime (JsNumber.ratio 119999 1000)
  = Spec.format_timestamp_double (JsNumber.ratio 119999 1000).
Proof.
  apply (proj1 formatTime_algorithm (JsNumber.ratio 119999 1000)).
  vm_compute. reflexivity.
Defined.

(** C1, as stated, fails at the double 0.0045: the algorithm of the
    specification in real arithmetic gives [00:00:00,004] on the exact
    value of that double, which lies below 0.0045, whereas the product
    of its fractional part with 1000 is the double 4.5, which
    [Math.round] takes to 5, so that [formatTime] returns
    [00:00:00,005]. *)
Lemma formatTime_departs_from_real_arithmetic :
  JsNumber.nonnegative (JsNumber.ratio 9 2000) = true
  /\ formatTime (JsNumber.ratio 9 2000) = lit "00:00:00,005"
  /\ Spec.format_timestamp (JsNumber.value (JsNumber.ratio 9 2000))
     = lit "00:00:00,004"
  /\ formatTime (JsNumber.ratio 9 2000)
     <> Spec.format_timestamp (JsNumber.value (JsNumber.ratio 9 2000)).
Proof.
  split; [reflexivity |].
  split; [vm_compute; reflexivity |].
  split; [vm_compute; reflexivity |].
  intros H. vm_compute in H. discriminate H.
Qed.

(** C2, at the input where the code departs from it.  For 0.9996
    seconds the fractional part times 1000 rounds to 1000;
    [padStart(3, '0')] only ever adds code units, so the field after the
    comma is the four code units [1000] and not a 3-digit string.  One
    tenth of a millisecond earlier the field is [999]. *)
Theorem formatTime_milliseconds_overflow :
  JsNumber.Math_round
    (JsNumber.mul
       (JsNumber.sub (JsNumber.ratio 2499 2500)
                     (JsNumber.to_number
                        (JsNumber.Math_floor (JsNumber.ratio 2499 2500))))
       (JsNumber.of_Z 1000))
  = JsNumber.Integer false 1000
  /\ formatTime (JsNumber.ratio 2499 2500) = lit "00:00:00,1000"
  /\ List.length (millisecondsField (formatTime (JsNumber.ratio 2499 2500)))
     = 4%nat
  /\ formatTime (JsNumber.ratio 9994 10000) = lit "00:00:00,999".
Proof. repeat split; vm_compute; reflexivity. Qed.

Lemma srtEntry_entry (segment : TranscriptionSegment) (index : nat) :
  srtEntry segment index
  = Spec.entry index (start segment) (end_ segment) (text segment).
Proof.
  unfold srtEntry, Spec.entry, Spec.line.
  rewrite Nat2Z.inj_add. simpl Z.of_nat.
  now rewrite <- !app_assoc.
Qed.

Lemma join_entries (segments : list TranscriptionSegment) :
  forall index,
    join [LF] (Array_map_from srtEntry index segments)
    = Spec.encode_from index segments.
Proof.
  induction segments as [|segment rest IH]; intros index; [reflexivity |].
  destruct rest as [|next rest].
  - simpl. now rewrite srtEntry_entry, app_nil_r.
  - change (Array_map_from srtEntry index (segment :: next :: rest))
      with (srtEntry segment index
              :: Array_map_from srtEntry (S index) (next :: rest)).
    change (Spec.encode_from index (segment :: next :: rest))
      with (Spec.entry index (start segment) (end_ segment) (text segment)
              ++ Spec.blank_line
              ++ Spec.encode_from (S index) (next :: rest)).
    rewrite <- IH, <- srtEntry_entry. reflexivity.
Qed.

(** C3.  [jsonToSrt] of the empty sequence is the empty string; in
    general its result is the document of the specification: for the
    segment at 0-based position [i] the line [i+1], the line
    [formatTime start --> formatTime end] and the line of the trimmed
    text, one blank line between consecutive entries; and the document
    of a non-empty sequence ends with the three lines of its last entry,
    nothing after them. *)
Theorem jsonToSrt_layout :
  jsonToSrt [] = []
  /\ (forall segments, jsonToSrt segments = Spec.encode segments)
  /\ (forall segments segment,
        exists before,
          jsonToSrt (segments ++ [segment])
          = before ++ Spec.entry (List.length segments) (start segment)
                                 (end_ segment) (text segment)).
Proof.
  split; [reflexivity | split].
  - intros segments. apply join_entries.
  - intros segments segment. unfold jsonToSrt, Array_map.
    rewrite Array_map_from_app, <- srtEntry_entry. apply join_snoc.
Qed.

Lemma srtEntry_declared (s1 s2 : TranscriptionSegment) (index : nat) :
  declared s1 = declared s2 -> srtEntry s1 index = srtEntry s2 index.
Proof.
  unfold declared, srtEntry. intros E. injection E as -> -> ->. reflexivity.
Qed.

Lemma Array_map_from_declared (l1 : list TranscriptionSegment) :
  forall l2 index,
    map declared l1 = map declared l2 ->
    Array_map_from srtEntry index l1 = Array_map_from srtEntry index l2.
Proof.
  induction l1 as [|s1 l1 IH]; intros [|s2 l2] index E; try discriminate.
  - reflexivity.
  - assert (E1 : declared s1 = declared s2) by (simpl in E; congruence).
    assert (E2 : map declared l1 = map declared l2)
      by (simpl in E; congruence).
    simpl.
    now rewrite (srtEntry_declared s1 s2 index E1), (IH l2 (S index) E2).
Qed.

(** C4.  The document is the join of one entry per segment, in the order
    of the input; the entry at 0-based [position] starts with the line
    [position + 1] and is built from the start, end and text of the
    segment at that position; two sequences that agree on these three
    properties, whatever else their segments carry, give the same
    document. *)
Theorem jsonToSrt_indices (segments : list TranscriptionSegment) :
  jsonToSrt segments = join [LF] (Array_map srtEntry segments)
  /\ List.length (Array_map srtEntry segments) = List.length segments
  /\ (forall position segment,
        nth_error segments position = Some segment ->
        nth_error (Array_map srtEntry segments) position
        = Some (JsNumber.toString (Z.of_nat position + 1) ++ [LF]
                  ++ formatTime (start segment) ++ lit " --> "
                  ++ formatTime (end_ segment) ++ [LF]
                  ++ trim (text segment) ++ [LF]))
  /\ (forall others,
        map declared others = map declared segments ->
        jsonToSrt others = jsonToSrt segments).
Proof.
  repeat split.
  - apply Array_map_from_length.
  - intros position segment H. unfold Array_map.
    rewrite Array_map_from_nth, H. reflexivity.
  - intros others E. unfold jsonToSrt, Array_map.
    now rewrite (Array_map_from_declared others segments 0%nat E).
Qed.

Lemma jsonToSrt_indices_witness :
  nth_error (Array_map srtEntry Sample.segments) 1
  = Some (JsNumber.toString (Z.of_nat 1 + 1) ++ [LF]
            ++ formatTime (JsNumber.ratio 31 10) ++ lit " --> "
            ++ formatTime (JsNumber.ratio 27 5) ++ [LF]
            ++ trim (lit "World") ++ [LF])
  /\ jsonToSrt
       [ {| start := JsNumber.ratio 13 25; end_ := JsNumber.ratio 72 25;
            text := lit "  Hello.  ";
            extra := [(lit "id", JNumber 99); (lit "speaker", JNull)] |};
         {| start := JsNumber.ratio 31 10; end_ := JsNumber.ratio 27 5;
            text := lit "World"; extra := [(lit "id", JNumber 1)] |} ]
     = jsonToSrt Sample.segments.
Proof.
  destruct (jsonToSrt_indices Sample.segments) as (_ & _ & Hnth & Hsame).
  split.
  - apply (Hnth 1%nat {| start := JsNumber.ratio 31 10;
                         end_ := JsNumber.ratio 27 5;
                         text := lit "World"; extra := [] |}).
    reflexivity.
  - apply Hsame. reflexivity.
Defined.

Lemma srtEntry_trimmed (segment : TranscriptionSegment) (index : nat) :
  srtEntry (trimmed segment) index = srtEntry segment index.
Proof. unfold srtEntry, trimmed. simpl. now rewrite trim_idempotent. Qed.

Lemma Array_map_from_trimmed (segments : list TranscriptionSegment) :
  forall index,
    Array_map_from srtEntry index (map trimmed segments)
    = Array_map_from srtEntry index segments.
Proof.
  induction segments as [|s segments IH]; intros index; simpl;
    [reflexivity | now rewrite srtEntry_trimmed, IH].
Qed.

Lemma trimmed_idempotent (segment : TranscriptionSegment) :
  trimmed (trimmed segment) = trimmed segment.
Proof. unfold trimmed. simpl. now rewrite trim_idempotent. Qed.

(** C5.  Encoding the segments with their texts trimmed beforehand gives
    the same document as encoding the segments themselves; trimming
    twice is trimming once; and two encodings of the same sequence are
    the same string. *)
Theorem jsonToSrt_trim_idempotent (segments : list TranscriptionSegment) :
  jsonToSrt (map trimmed segments) = jsonToSrt segments
  /\ map trimmed (map trimmed segments) = map trimmed segments
  /\ (forall first second,
        first = jsonToSrt segments -> second = jsonToSrt segments ->
        first = second).
Proof.
  split; [| split].
  - unfold jsonToSrt, Array_map. now rewrite Array_map_from_trimmed.
  - rewrite map_map. apply map_ext. exact trimmed_idempotent.
  - intros first second -> ->. reflexivity.
Qed.

Lemma jsonToSrt_trim_idempotent_witness :
  jsonToSrt Sample.segments = jsonToSrt (rev (rev Sample.segments)).
Proof.
  apply (proj2 (proj2 (jsonToSrt_trim_idempotent Sample.segments))
               (jsonToSrt Sample.segments)
               (jsonToSrt (rev (rev Sample.segments)))).
  - reflexivity.
  - reflexivity.
Defined.

(* ================================================================== *)
(** * The transcription client: the instruction text *)
(* ================================================================== *)

Section PromptFacts.

Lemma prompt_with_reference_embeds (reference : jsstring) :
  reference_embedded (prompt_with_reference reference) reference.
Proof.
  unfold reference_embedded, prompt_with_reference.
  match goal with
  | |- exists before after, ?head ++ [LF] ++ _ ++ [LF] ++ ?tail = _ =>
      exists (firstn (List.length head - List.length REFERENCE_TEXT_START)
                     head),
             (skipn (List.length REFERENCE_TEXT_END) tail);
      assert (Hhead :
                head
                = firstn (List.length head
                          - List.length REFERENCE_TEXT_START) head
                    ++ REFERENCE_TEXT_START)
        by (vm_compute; reflexivity);
      assert (Htail :
                tail
                = REFERENCE_TEXT_END
                    ++ skipn (List.length REFERENCE_TEXT_END) tail)
        by (vm_compute; reflexivity);
      rewrite Htail at 1; rewrite Hhead at 1
  end.
  now rewrite <- !app_assoc.
Qed.

Lemma prompt_without_reference_names :
  Forall (fun name => occurs_in name prompt_without_reference) properNouns.
Proof.
  apply Forall_forall. intros name Hin. apply includes_occurs.
  revert name Hin. apply Forall_forall.
  repeat constructor; vm_compute; reflexivity.
Qed.

Lemma prompt_without_reference_unmarked :
  ~ occurs_in REFERENCE_TEXT_START prompt_without_reference
  /\ ~ occurs_in REFERENCE_TEXT_END prompt_without_reference.
Proof.
  split; apply includes_absent; vm_compute; reflexivity.
Qed.

Lemma buildPrompt_empty : buildPrompt (Some []) = prompt_without_reference.
Proof. reflexivity. Qed.

Lemma buildPrompt_null : buildPrompt None = prompt_without_reference.
Proof. reflexivity. Qed.

Lemma instructionText_buildRequest
      (audio : File) (base64 reference : option jsstring) :
  instructionText (buildRequest audio base64 reference)
  = [buildPrompt reference].
Proof. reflexivity. Qed.

End PromptFacts.

(** C6, as amended.  The request carries one instruction text.  When the
    reference text is a non-empty string, that text holds it verbatim on
    the lines between the start and the end delimiter line; when the
    reference text is [null] or the empty string, that text names every
    entry of the fixed list of proper nouns. *)
Theorem instruction_text_by_reference
        (audio : File) (base64 : option jsstring)
        (reference : option jsstring) :
  exists prompt,
    instructionText (buildRequest audio base64 reference) = [prompt]
    /\ match reference with
       | Some (c :: rest) => reference_embedded prompt (c :: rest)
       | Some [] | None =>
           Forall (fun name => occurs_in name prompt) properNouns
       end.
Proof.
  exists (buildPrompt reference). split.
  - apply instructionText_buildRequest.
  - destruct reference as [[|c rest]|].
    + exact prompt_without_reference_names.
    + exact (prompt_with_reference_embeds (c :: rest)).
    + exact prompt_without_reference_names.
Qed.

(** C6, as stated, fails for a reference text that is present and empty:
    the instruction text of that request does not hold the reference
    text between the delimiter lines, since it holds no delimiter line
    at all. *)
Lemma empty_reference_not_embedded :
  ~ (exists prompt,
        instructionText (buildRequest Sample.audio None (Some [])) = [prompt]
        /\ reference_embedded prompt []).
Proof.
  intros (prompt & Htext & before & after & Hprompt).
  rewrite instructionText_buildRequest, buildPrompt_empty in Htext.
  injection Htext as <-.
  apply (proj1 prompt_without_reference_unmarked).
  exists before, ([LF] ++ [] ++ [LF] ++ REFERENCE_TEXT_END ++ after).
  exact Hprompt.
Qed.

Lemma buildRequest_empty (audio : File) (base64 : option jsstring) :
  buildRequest audio base64 (Some []) = buildRequest audio base64 None.
Proof.
  unfold buildRequest. now rewrite buildPrompt_empty, buildPrompt_null.
Qed.

(* ================================================================== *)
(** * The transcription client: replies and failures *)
(* ================================================================== *)

Section ClientFacts.

Variable P : Platform.
Variables (audio : File) (reference : option jsstring) (t : Trace).

Lemma generateTranscription_unread (reason : Thrown) :
  readAsDataURL P audio = Throw reason ->
  generateTranscription P audio reference t = (Throw reason, t).
Proof.
  intros H. unfold generateTranscription, fileToBase64, await, settle.
  now rewrite H.
Qed.

Lemma generateTranscription_read (dataUrl : jsstring) :
  readAsDataURL P audio = Return dataUrl ->
  generateTranscription P audio reference t
  = let sent := afterRequest t (requestFor audio dataUrl reference) in
    match generateContent P (requestFor audio dataUrl reference) with
    | Throw cause => rethrow cause sent
    | Return response =>
        match JSON_parse P (response_text response) with
        | Throw cause => rethrow cause sent
        | Return (ReplyArray elements) => (Return elements, sent)
        | Return _ =>
            rethrow (new_Error (lit "API response is not a valid array."))
                    sent
        end
    end.
Proof.
  intros H.
  unfold generateTranscription, fileToBase64, try_catch, await, settle,
    resolve, send, requestFor.
  rewrite H. cbv zeta.
  destruct (generateContent P _) as [cause | response]; [reflexivity |].
  destruct (JSON_parse P _) as [cause | value]; [reflexivity |].
  now destruct value.
Qed.

Lemma rethrow_run (cause : Thrown) (t1 : Trace) :
  rethrow cause t1
  = (Throw (new_Error
              match cause with
              | ErrorInstance message =>
                  lit "Failed to generate transcription: " ++ message
              | NotAnError _ =>
                  lit "An unknown error occurred during transcription."
              end),
     {| requests := requests t1; console := console t1 ++ [cause] |}).
Proof. now destruct cause. Qed.

Lemma generateTranscription_success (segments : list TranscriptionSegment) :
  fst (generateTranscription P audio reference t) = Return segments ->
  exists dataUrl response,
    readAsDataURL P audio = Return dataUrl
    /\ generateContent P (requestFor audio dataUrl reference)
       = Return response
    /\ JSON_parse P (response_text response) = Return (ReplyArray segments).
Proof.
  destruct (readAsDataURL P audio) as [reason | dataUrl] eqn:Hread.
  - now rewrite (generateTranscription_unread reason Hread).
  - rewrite (generateTranscription_read dataUrl Hread). cbv zeta.
    intros H. exists dataUrl.
    destruct (generateContent P _) as [cause | response];
      [now rewrite rethrow_run in H |].
    exists response.
    destruct (JSON_parse P _) as [cause | value];
      [now rewrite rethrow_run in H |].
    destruct value; try (now rewrite rethrow_run in H).
    simpl in H. injection H as ->. now repeat split.
Qed.

End ClientFacts.

(** C10.  The empty string is falsy, so a call with an empty reference
    text runs exactly as a call with no reference text: it builds the
    very same request, whose instruction text is the second template,
    which names the proper nouns and holds neither delimiter line. *)
Theorem empty_reference_is_absent (audio : File) (base64 : option jsstring) :
  truthy (Some []) = false
  /\ buildRequest audio base64 (Some []) = buildRequest audio base64 None
  /\ (forall (P : Platform) (t : Trace),
        generateTranscription P audio (Some []) t
        = generateTranscription P audio None t)
  /\ instructionText (buildRequest audio base64 (Some []))
     = [prompt_without_reference]
  /\ Forall (fun name => occurs_in name prompt_without_reference) properNouns
  /\ ~ occurs_in REFERENCE_TEXT_START prompt_without_reference
  /\ ~ occurs_in REFERENCE_TEXT_END prompt_without_reference.
Proof.
  split; [reflexivity |].
  split; [apply buildRequest_empty |].
  split.
  { intros P t.
    destruct (readAsDataURL P audio) as [reason | dataUrl] eqn:Hread.
    - now rewrite !(generateTranscription_unread P audio _ t reason Hread).
    - rewrite !(generateTranscription_read P audio _ t dataUrl Hread).
      unfold requestFor. now rewrite buildRequest_empty. }
  split; [now rewrite instructionText_buildRequest, buildPrompt_empty |].
  split; [exact prompt_without_reference_names |].
  exact prompt_without_reference_unmarked.
Qed.

(** Closes the goals left once the failure has been traced to the
    [catch] clause. *)
Ltac wrapped_failure cause :=
  rewrite rethrow_run;
  destruct cause; eexists; repeat split;
  try discriminate; intros ? E; now inversion E.

(** C7.  When the reply of the service parses as JSON and the parsed
    value is not an array, [generateTranscription] rejects: the error
    thrown for the format, [API response is not a valid array.], reaches
    the caller under the prefix the [catch] clause gives every failure,
    and no segment sequence is returned. *)
Theorem non_array_reply_is_rejected
        (P : Platform) (audio : File) (reference : option jsstring)
        (t : Trace) (dataUrl : jsstring)
        (response : GenerateContentResponse) (value : Reply) :
  readAsDataURL P audio = Return dataUrl ->
  generateContent P (requestFor audio dataUrl reference) = Return response ->
  JSON_parse P (response_text response) = Return value ->
  Array_isArray value = false ->
  fst (generateTranscription P audio reference t)
  = Throw (new_Error (lit "Failed to generate transcription: "
                        ++ lit "API response is not a valid array."))
  /\ forall segments,
       fst (generateTranscription P audio reference t) <> Return segments.
Proof.
  intros Hread Hsent Hparsed Harray.
  rewrite (generateTranscription_read P audio reference t dataUrl Hread).
  cbv zeta. rewrite Hsent, Hparsed.
  destruct value; try discriminate Harray; rewrite rethrow_run;
    (split; [reflexivity | discriminate]).
Qed.

Lemma non_array_reply_is_rejected_witness :
  fst (generateTranscription
         (Sample.platform (Return Sample.response) (Return (ReplyObject [])))
         Sample.audio None no_trace)
  = Throw (new_Error (lit "Failed to generate transcription: "
                        ++ lit "API response is not a valid array."))
  /\ forall segments,
       fst (generateTranscription
              (Sample.platform (Return Sample.response)
                               (Return (ReplyObject [])))
              Sample.audio None no_trace)
       <> Return segments.
Proof.
  apply (non_array_reply_is_rejected
           (Sample.platform (Return Sample.response) (Return (ReplyObject [])))
           Sample.audio None no_trace Sample.dataUrl Sample.response
           (ReplyObject [])); reflexivity.
Defined.

(** C8.  When the call of the service or the parsing of its reply throws
    [cause], [generateTranscription] rejects with one [Error] whose
    message is not empty: the prefix followed by the message of [cause]
    when [cause] is an instance of [Error], the fixed unknown-error
    message otherwise; and the run has sent exactly one request. *)
Theorem failure_is_wrapped_once
        (P : Platform) (audio : File) (reference : option jsstring)
        (t : Trace) (dataUrl : jsstring) (cause : Thrown) :
  readAsDataURL P audio = Return dataUrl ->
  (generateContent P (requestFor audio dataUrl reference) = Throw cause
   \/ exists response,
        generateContent P (requestFor audio dataUrl reference)
        = Return response
        /\ JSON_parse P (response_text response) = Throw cause) ->
  exists message,
    fst (generateTranscription P audio reference t)
    = Throw (ErrorInstance message)
    /\ message <> []
    /\ (forall text,
          cause = ErrorInstance text ->
          message = lit "Failed to generate transcription: " ++ text)
    /\ (forall what,
          cause = NotAnError what ->
          message = lit "An unknown error occurred during transcription.")
    /\ requests (snd (generateTranscription P audio reference t))
       = requests t ++ [requestFor audio dataUrl reference].
Proof.
  intros Hread Hfail.
  rewrite (generateTranscription_read P audio reference t dataUrl Hread).
  cbv zeta.
  assert (Hrun :
            match generateContent P (requestFor audio dataUrl reference) with
            | Throw cause0 => Some cause0
            | Return response =>
                match JSON_parse P (response_text response) with
                | Throw cause0 => Some cause0
                | Return _ => None
                end
            end = Some cause).
  { destruct Hfail as [H | (response & H & H')]; rewrite H; [reflexivity |].
    now rewrite H'. }
  destruct (generateContent P _) as [cause0 | response].
  - injection Hrun as ->. wrapped_failure cause.
  - destruct (JSON_parse P _) as [cause0 | value]; [| discriminate Hrun].
    injection Hrun as ->. wrapped_failure cause.
Qed.

Lemma failure_is_wrapped_once_witness :
  exists message,
    fst (generateTranscription
           (Sample.platform (Throw (ErrorInstance (lit "fetch failed")))
                            (Return ReplyNull))
           Sample.audio None no_trace)
    = Throw (ErrorInstance message)
    /\ message <> []
    /\ (forall text,
          ErrorInstance (lit "fetch failed") = ErrorInstance text ->
          message = lit "Failed to generate transcription: " ++ text)
    /\ (forall what,
          ErrorInstance (lit "fetch failed") = NotAnError what ->
          message = lit "An unknown error occurred during transcription.")
    /\ requests
         (snd (generateTranscription
                 (Sample.platform (Throw (ErrorInstance (lit "fetch failed")))
                                  (Return ReplyNull))
                 Sample.audio None no_trace))
       = requests no_trace
           ++ [requestFor Sample.audio Sample.dataUrl None].
Proof.
  apply (failure_is_wrapped_once
           (Sample.platform (Throw (ErrorInstance (lit "fetch failed")))
                            (Return ReplyNull))
           Sample.audio None no_trace Sample.dataUrl
           (ErrorInstance (lit "fetch failed"))).
  - reflexivity.
  - left. reflexivity.
Defined.

(* ================================================================== *)
(** * [handleGenerateSrt] *)
(* ================================================================== *)

(** C9.  With an audio file selected, an attempt whose transcription
    rejects ends with an empty SRT string, the message of the failure
    in [error] and the loading flag off; and the SRT string is non-empty
    only when the file was read, the service answered and the answer
    parsed as an array, in which case it is the encoding of that array
    and no error is set. *)
Theorem failed_attempt_leaves_no_srt
        (P : Platform) (st : AppState) (t : Trace) (audio : File) :
  audioFile st = Some audio ->
  (forall err,
      fst (generateTranscription P audio (referenceText st) t) = Throw err ->
      srtContent (fst (handleGenerateSrt P st t)) = []
      /\ error (fst (handleGenerateSrt P st t)) = Some (errorMessage err)
      /\ isLoading (fst (handleGenerateSrt P st t)) = false)
  /\ (srtContent (fst (handleGenerateSrt P st t)) <> [] ->
      exists dataUrl response segments,
        readAsDataURL P audio = Return dataUrl
        /\ generateContent P (requestFor audio dataUrl (referenceText st))
           = Return response
        /\ JSON_parse P (response_text response)
           = Return (ReplyArray segments)
        /\ srtContent (fst (handleGenerateSrt P st t)) = jsonToSrt segments
        /\ error (fst (handleGenerateSrt P st t)) = None).
Proof.
  intros Hfile. unfold handleGenerateSrt. rewrite Hfile.
  destruct (generateTranscription P audio (referenceText st) t)
    as [[err | segments] t'] eqn:Hrun.
  - split.
    + intros err' H. simpl in H. injection H as <-. now repeat split.
    + intros H. now contradiction H.
  - split.
    + intros err H. discriminate H.
    + intros _.
      destruct (generateTranscription_success P audio (referenceText st) t
                  segments) as (dataUrl & response & H1 & H2 & H3).
      { now rewrite Hrun. }
      exists dataUrl, response, segments. now repeat split.
Qed.

Lemma failed_attempt_leaves_no_srt_witness :
  srtContent
    (fst (handleGenerateSrt
            (Sample.platform (Return Sample.response)
                             (Throw (ErrorInstance (lit "Unexpected token")))
            ) Sample.ready no_trace)) = []
  /\ error
       (fst (handleGenerateSrt
               (Sample.platform (Return Sample.response)
                                (Throw (ErrorInstance (lit "Unexpected token")))
               ) Sample.ready no_trace))
     = Some (errorMessage
               (ErrorInstance
                  (lit "Failed to generate transcription: Unexpected token")))
  /\ isLoading
       (fst (handleGenerateSrt
               (Sample.platform (Return Sample.response)
                                (Throw (ErrorInstance (lit "Unexpected token")))
               ) Sample.ready no_trace)) = false.
Proof.
  apply (proj1 (failed_attempt_leaves_no_srt
                  (Sample.platform
                     (Return Sample.response)
                     (Throw (ErrorInstance (lit "Unexpected token"))))
                  Sample.ready no_trace Sample.audio eq_refl)
               (ErrorInstance
                  (lit "Failed to generate transcription: Unexpected token"))).
  vm_compute. reflexivity.
Defined.

(* ================================================================== *)
(** * Further properties of the encoder *)
(* ================================================================== *)

Section JoinFacts.

Lemma join_cons (sep p : jsstring) (parts : list jsstring) :
  parts <> [] -> join sep (p :: parts) = p ++ sep ++ join sep parts.
Proof. destruct parts; [congruence | reflexivity]. Qed.

Lemma join_app (sep : jsstring) (front back : list jsstring) :
  front <> [] -> back <> [] ->
  join sep (front ++ back) = join sep front ++ sep ++ join sep back.
Proof.
  intros Hfront Hback. induction front as [|p front IH]; [congruence |].
  destruct front as [|q front].
  - change ([p] ++ back) with (p :: back).
    rewrite (join_cons sep p back) by assumption. reflexivity.
  - change ((p :: q :: front) ++ back) with (p :: ((q :: front) ++ back)).
    rewrite (join_cons sep p ((q :: front) ++ back)) by discriminate.
    rewrite IH by discriminate.
    rewrite (join_cons sep p (q :: front)) by discriminate.
    now rewrite <- !app_assoc.
Qed.

End JoinFacts.

Lemma Array_map_from_concat (A B : Type) (callback : A -> nat -> B)
      (front back : list A) :
  forall index,
    Array_map_from callback index (front ++ back)
    = Array_map_from callback index front
        ++ Array_map_from callback (index + List.length front) back.
Proof.
  induction front as [|a front IH]; intros index; simpl.
  - now rewrite Nat.add_0_r.
  - rewrite IH. now rewrite Nat.add_succ_r.
Qed.

Lemma Array_map_from_nonempty (A B : Type) (callback : A -> nat -> B)
      (index : nat) (array : list A) :
  array <> [] -> Array_map_from callback index array <> [].
Proof. destruct array; [congruence | discriminate]. Qed.

(** X6.  The document of a sequence followed by further segments is the
    document of the sequence, one blank line, and the entries of the
    further segments numbered on from the length of the sequence. *)
Theorem jsonToSrt_append (earlier later : list TranscriptionSegment) :
  earlier <> [] -> later <> [] ->
  jsonToSrt (earlier ++ later)
  = jsonToSrt earlier ++ [LF]
      ++ join [LF] (Array_map_from srtEntry (List.length earlier) later).
Proof.
  intros Hearlier Hlater. unfold jsonToSrt, Array_map.
  rewrite Array_map_from_concat.
  apply join_app; now apply Array_map_from_nonempty.
Qed.

Lemma jsonToSrt_append_witness :
  jsonToSrt (Sample.segments ++ Sample.segments)
  = jsonToSrt Sample.segments ++ [LF]
      ++ join [LF] (Array_map_from srtEntry 2 Sample.segments).
Proof.
  apply (jsonToSrt_append Sample.segments Sample.segments); discriminate.
Defined.

Lemma srtEntry_ends (segment : TranscriptionSegment) (index : nat) :
  exists body, srtEntry segment index = body ++ [LF].
Proof.
  unfold srtEntry. eexists. rewrite !app_assoc. reflexivity.
Qed.

Lemma toString_one : JsNumber.toString (Z.of_nat 0 + 1) = [49%N].
Proof. reflexivity. Qed.

Lemma jsonToSrt_first_line (segment : TranscriptionSegment)
      (rest : list TranscriptionSegment) :
  exists tail, jsonToSrt (segment :: rest) = [49%N; LF] ++ tail.
Proof.
  unfold jsonToSrt, Array_map.
  change (Array_map_from srtEntry 0 (segment :: rest))
    with (srtEntry segment 0 :: Array_map_from srtEntry 1 rest).
  destruct (Array_map_from srtEntry 1 rest) as [|e es].
  - unfold join, srtEntry. rewrite toString_one. eexists. reflexivity.
  - rewrite join_cons by discriminate. unfold srtEntry.
    rewrite toString_one. eexists.
    rewrite <- !app_assoc. reflexivity.
Qed.

Lemma jsonToSrt_nil (segments : list TranscriptionSegment) :
  jsonToSrt segments = [] <-> segments = [].
Proof.
  split; [| now intros ->].
  destruct segments as [|segment rest]; [reflexivity |].
  destruct (jsonToSrt_first_line segment rest) as (tail & ->). discriminate.
Qed.

(** X5.  The document is the empty string only for the empty sequence;
    any other document starts with the line [1] and ends with a line
    feed. *)
Theorem jsonToSrt_empty_iff (segments : list TranscriptionSegment) :
  (jsonToSrt segments = [] <-> segments = [])
  /\ (segments <> [] ->
      (exists rest, jsonToSrt segments = [49%N; LF] ++ rest)
      /\ (exists front, jsonToSrt segments = front ++ [LF])).
Proof.
  split; [apply jsonToSrt_nil |].
  intros Hne. split.
  - destruct segments as [|segment rest]; [congruence |].
    apply jsonToSrt_first_line.
  - destruct (exists_last Hne) as (front & final & ->).
    unfold jsonToSrt, Array_map. rewrite Array_map_from_app.
    destruct (srtEntry_ends final (0 + List.length front)) as (body & ->).
    destruct (join_snoc [LF] (Array_map_from srtEntry 0 front)
                        (body ++ [LF])) as (before & ->).
    exists (before ++ body). now rewrite <- app_assoc.
Qed.

Lemma jsonToSrt_empty_iff_witness :
  (exists rest, jsonToSrt Sample.segments = [49%N; LF] ++ rest)
  /\ (exists front, jsonToSrt Sample.segments = front ++ [LF]).
Proof.
  apply (proj2 (jsonToSrt_empty_iff Sample.segments)). discriminate.
Defined.

(* ================================================================== *)
(** * Further properties of the transcription client *)
(* ================================================================== *)

Section SplitFacts.

Variable sep : code_unit.

Lemma split_at_free (piece : jsstring) :
  ~ In sep piece ->
  forall rest cur,
    split_at sep (piece ++ rest) cur = split_at sep rest (rev piece ++ cur).
Proof.
  induction piece as [|c piece IH]; intros Hfree rest cur; [reflexivity |].
  simpl. destruct (N.eqb_spec c sep) as [-> | Hc].
  - exfalso. apply Hfree. now left.
  - rewrite IH by (intros H; apply Hfree; now right).
    now rewrite <- app_assoc.
Qed.

Lemma split_free (piece : jsstring) :
  ~ In sep piece -> split piece sep = [piece].
Proof.
  intros Hfree. unfold split.
  rewrite <- (app_nil_r piece) at 1. rewrite split_at_free by assumption.
  simpl. now rewrite app_nil_r, rev_involutive.
Qed.

Lemma split_first (piece rest : jsstring) :
  ~ In sep piece ->
  split (piece ++ sep :: rest) sep = piece :: split rest sep.
Proof.
  intros Hfree. unfold split. rewrite split_at_free by assumption.
  simpl. rewrite N.eqb_refl. now rewrite app_nil_r, rev_involutive.
Qed.

End SplitFacts.

(** X7.  When the reader returns a data URL made of a header without
    comma, a comma and a payload without comma, followed by nothing or
    by a further comma, [fileToBase64] resolves with that payload and
    has no other effect. *)
Theorem fileToBase64_payload
        (P : Platform) (file : File) (t : Trace)
        (header payload rest : jsstring) :
  readAsDataURL P file = Return (header ++ [COMMA] ++ payload ++ rest) ->
  ~ In COMMA header -> ~ In COMMA payload ->
  (rest = [] \/ exists more, rest = COMMA :: more) ->
  fileToBase64 P file t = (Return (Some payload), t).
Proof.
  intros Hread Hheader Hpayload Hrest.
  unfold fileToBase64, await, settle, resolve. rewrite Hread.
  change (header ++ [COMMA] ++ payload ++ rest)
    with (header ++ COMMA :: (payload ++ rest)).
  rewrite split_first by assumption.
  destruct Hrest as [-> | (more & ->)].
  - rewrite app_nil_r, split_free by assumption. reflexivity.
  - rewrite split_first by assumption. reflexivity.
Qed.

Lemma fileToBase64_payload_witness :
  fileToBase64 (Sample.platform (Return Sample.response) (Return ReplyNull))
               Sample.audio no_trace
  = (Return (Some (lit "SUQzBAA=")), no_trace).
Proof.
  apply (fileToBase64_payload
           (Sample.platform (Return Sample.response) (Return ReplyNull))
           Sample.audio no_trace (lit "data:audio/mpeg;base64")
           (lit "SUQzBAA=") []).
  - reflexivity.
  - vm_compute. intuition discriminate.
  - vm_compute. intuition discriminate.
  - left. reflexivity.
Defined.

(** X8.  When the string the reader returns holds no comma,
    [fileToBase64] resolves with [undefined], and the client still
    sends its request, with no data in the audio part. *)
Theorem undefined_audio_is_still_sent
        (P : Platform) (audio : File) (reference : option jsstring)
        (t : Trace) (dataUrl : jsstring) :
  readAsDataURL P audio = Return dataUrl ->
  ~ In COMMA dataUrl ->
  fileToBase64 P audio t = (Return None, t)
  /\ requests (snd (generateTranscription P audio reference t))
     = requests t ++ [buildRequest audio None reference].
Proof.
  intros Hread Hfree. split.
  - unfold fileToBase64, await, settle, resolve. rewrite Hread.
    now rewrite split_free.
  - rewrite (generateTranscription_read P audio reference t dataUrl Hread).
    cbv zeta. unfold requestFor. rewrite split_free by assumption.
    change (nth_error [dataUrl] 1) with (@None jsstring).
    destruct (generateContent P _) as [cause | response];
      [now rewrite rethrow_run |].
    destruct (JSON_parse P _) as [cause | value];
      [now rewrite rethrow_run |].
    destruct value; try (now rewrite rethrow_run); reflexivity.
Qed.

Lemma undefined_audio_is_still_sent_witness :
  fileToBase64
    {| readAsDataURL := fun _ => Return (lit "data:");
       generateContent := fun _ => Return Sample.response;
       JSON_parse := fun _ => Return (ReplyArray []) |}
    Sample.audio no_trace = (Return None, no_trace)
  /\ requests
       (snd (generateTranscription
               {| readAsDataURL := fun _ => Return (lit "data:");
                  generateContent := fun _ => Return Sample.response;
                  JSON_parse := fun _ => Return (ReplyArray []) |}
               Sample.audio None no_trace))
     = requests no_trace ++ [buildRequest Sample.audio None None].
Proof.
  apply (undefined_audio_is_still_sent
           {| readAsDataURL := fun _ => Return (lit "data:");
              generateContent := fun _ => Return Sample.response;
              JSON_parse := fun _ => Return (ReplyArray []) |}
           Sample.audio None no_trace (lit "data:")).
  - reflexivity.
  - vm_compute. intuition discriminate.
Defined.

(** X9.  When the file is read, the service answers and the answer
    parses as an array, [generateTranscription] resolves with the
    elements of that array as they are, having sent one request and
    written nothing to the console. *)
Theorem transcription_success
        (P : Platform) (audio : File) (reference : option jsstring)
        (t : Trace) (dataUrl : jsstring)
        (response : GenerateContentResponse)
        (segments : list TranscriptionSegment) :
  readAsDataURL P audio = Return dataUrl ->
  generateContent P (requestFor audio dataUrl reference) = Return response ->
  JSON_parse P (response_text response) = Return (ReplyArray segments) ->
  generateTranscription P audio reference t
  = (Return segments,
     {| requests := requests t ++ [requestFor audio dataUrl reference];
        console := console t |}).
Proof.
  intros Hread Hsent Hparsed.
  rewrite (generateTranscription_read P audio reference t dataUrl Hread).
  cbv zeta. now rewrite Hsent, Hparsed.
Qed.

Lemma transcription_success_witness :
  generateTranscription
    (Sample.platform (Return Sample.response)
                     (Return (ReplyArray Sample.segments)))
    Sample.audio None no_trace
  = (Return Sample.segments,
     {| requests := requests no_trace
                      ++ [requestFor Sample.audio Sample.dataUrl None];
        console := console no_trace |}).
Proof.
  apply (transcription_success
           (Sample.platform (Return Sample.response)
                            (Return (ReplyArray Sample.segments)))
           Sample.audio None no_trace Sample.dataUrl Sample.response
           Sample.segments); reflexivity.
Defined.

(** X10.  Once the file is read, a run writes to the console exactly
    the value its [try] block threw: the cause thrown by the service or
    by the parser, or the format error for a reply that is not an
    array; and nothing when the reply is an array. *)
Theorem failure_is_logged_once
        (P : Platform) (audio : File) (reference : option jsstring)
        (t : Trace) (dataUrl : jsstring) :
  readAsDataURL P audio = Return dataUrl ->
  console (snd (generateTranscription P audio reference t))
  = console t
      ++ match generateContent P (requestFor audio dataUrl reference) with
         | Throw cause => [cause]
         | Return response =>
             match JSON_parse P (response_text response) with
             | Throw cause => [cause]
             | Return (ReplyArray _) => []
             | Return _ =>
                 [new_Error (lit "API response is not a valid array.")]
             end
         end.
Proof.
  intros Hread.
  rewrite (generateTranscription_read P audio reference t dataUrl Hread).
  cbv zeta.
  destruct (generateContent P _) as [cause | response];
    [now rewrite rethrow_run |].
  destruct (JSON_parse P _) as [cause | value];
    [now rewrite rethrow_run |].
  destruct value; try (now rewrite rethrow_run).
  simpl. now rewrite app_nil_r.
Qed.

Lemma failure_is_logged_once_witness :
  console
    (snd (generateTranscription
            (Sample.platform (Return Sample.response) (Return ReplyNull))
            Sample.audio None no_trace))
  = console no_trace
      ++ [new_Error (lit "API response is not a valid array.")].
Proof.
  apply (failure_is_logged_once
           (Sample.platform (Return Sample.response) (Return ReplyNull))
           Sample.audio None no_trace Sample.dataUrl).
  reflexivity.
Defined.

(** X11.  Whatever the platform does, a run of [generateTranscription]
    keeps the requests already sent and adds one request when the file
    could be read, none when it could not. *)
Theorem at_most_one_request
        (P : Platform) (audio : File) (reference : option jsstring)
        (t : Trace) :
  requests (snd (generateTranscription P audio reference t))
  = requests t
      ++ match readAsDataURL P audio with
         | Return dataUrl => [requestFor audio dataUrl reference]
         | Throw _ => []
         end.
Proof.
  destruct (readAsDataURL P audio) as [reason | dataUrl] eqn:Hread.
  - rewrite (generateTranscription_unread P audio reference t reason Hread).
    simpl. now rewrite app_nil_r.
  - rewrite (generateTranscription_read P audio reference t dataUrl Hread).
    cbv zeta.
    destruct (generateContent P _) as [cause | response];
      [now rewrite rethrow_run |].
    destruct (JSON_parse P _) as [cause | value];
      [now rewrite rethrow_run |].
    destruct value; try (now rewrite rethrow_run); reflexivity.
Qed.

(** X17.  Once the audio file is read, every rejection of
    [generateTranscription] is an [Error] whose message is the prefix
    [Failed to generate transcription: ] followed by a message, or the
    fixed unknown-error message: whatever was thrown inside the [try]
    block reaches the caller only through the [catch] clause. *)
Theorem rejection_after_read_is_an_error
        (P : Platform) (audio : File) (reference : option jsstring)
        (t : Trace) (dataUrl : jsstring) (reason : Thrown) :
  readAsDataURL P audio = Return dataUrl ->
  fst (generateTranscription P audio reference t) = Throw reason ->
  (exists message,
      reason = ErrorInstance
                 (lit "Failed to generate transcription: " ++ message))
  \/ reason = ErrorInstance
                (lit "An unknown error occurred during transcription.").
Proof.
  intros Hread.
  rewrite (generateTranscription_read P audio reference t dataUrl Hread).
  cbv zeta.
  assert (Hcatch : forall cause t1,
             fst (rethrow cause t1) = Throw reason ->
             (exists message,
                 reason = ErrorInstance
                            (lit "Failed to generate transcription: "
                               ++ message))
             \/ reason = ErrorInstance
                           (lit "An unknown error occurred during transcription.")).
  { intros cause t1. rewrite rethrow_run.
    destruct cause as [message | what]; intros H; injection H as <-.
    - left. now exists message.
    - now right. }
  destruct (generateContent P _) as [cause | response]; [apply Hcatch |].
  destruct (JSON_parse P _) as [cause | value]; [apply Hcatch |].
  destruct value; try apply Hcatch. discriminate.
Qed.

Lemma rejection_after_read_is_an_error_witness :
  (exists message,
      ErrorInstance (lit "Failed to generate transcription: " ++ lit "quota")
      = ErrorInstance
          (lit "Failed to generate transcription: " ++ message))
  \/ ErrorInstance (lit "Failed to generate transcription: " ++ lit "quota")
     = ErrorInstance
         (lit "An unknown error occurred during transcription.").
Proof.
  apply (rejection_after_read_is_an_error
           (Sample.platform (Throw (ErrorInstance (lit "quota")))
                            (Return ReplyNull))
           Sample.audio None no_trace Sample.dataUrl
           (ErrorInstance
              (lit "Failed to generate transcription: " ++ lit "quota"))).
  - reflexivity.
  - reflexivity.
Defined.

Lemma occurs_in_later (piece front whole : jsstring) :
  occurs_in piece whole -> occurs_in piece (front ++ whole).
Proof.
  intros (before & after & ->). exists (front ++ before), after.
  now rewrite <- app_assoc.
Qed.

Lemma prompt_with_reference_keys (reference : jsstring) :
  Forall (fun key =>
            occurs_in (dq ++ key ++ dq) (prompt_with_reference reference))
         (requiredOfItems transcriptionSchema).
Proof.
  unfold prompt_with_reference.
  match goal with
  | |- Forall (fun key => occurs_in _ (?head ++ [LF] ++ _ ++ [LF] ++ ?tail))
              _ =>
      assert (Htail :
                Forall (fun key => includes tail (dq ++ key ++ dq) = true)
                       (requiredOfItems transcriptionSchema))
        by (repeat constructor; vm_compute; reflexivity);
      generalize dependent tail; generalize head
  end.
  intros head tail Htail. rewrite Forall_forall in *. intros key Hkey.
  rewrite !app_assoc. apply occurs_in_later.
  apply includes_occurs. now apply Htail.
Qed.

Lemma prompt_without_reference_keys :
  Forall (fun key => occurs_in (dq ++ key ++ dq) prompt_without_reference)
         (requiredOfItems transcriptionSchema).
Proof.
  apply Forall_forall. intros key Hkey. apply includes_occurs.
  revert key Hkey. apply Forall_forall.
  repeat constructor; vm_compute; reflexivity.
Qed.

(** X12.  For every reference text, the response schema of the request
    requires [start], [end] and [text] of each element, and the
    instruction text of the same request names each of them in double
    quotes. *)
Theorem instruction_names_required_fields
        (audio : File) (base64 reference : option jsstring) :
  requiredOfItems (responseSchema (config (buildRequest audio base64 reference)))
  = [lit "start"; lit "end"; lit "text"]
  /\ Forall (fun key =>
               Forall (occurs_in (dq ++ key ++ dq))
                      (instructionText (buildRequest audio base64 reference)))
            (requiredOfItems
               (responseSchema (config (buildRequest audio base64 reference)))).
Proof.
  split; [reflexivity |].
  rewrite instructionText_buildRequest.
  change (responseSchema (config (buildRequest audio base64 reference)))
    with transcriptionSchema.
  assert (H : Forall (fun key =>
                        occurs_in (dq ++ key ++ dq) (buildPrompt reference))
                     (requiredOfItems transcriptionSchema)).
  { destruct reference as [[|c rest]|].
    - exact prompt_without_reference_keys.
    - exact (prompt_with_reference_keys (c :: rest)).
    - exact prompt_without_reference_keys. }
  rewrite Forall_forall in *. intros key Hkey.
  constructor; [now apply H | constructor].
Qed.

(* ================================================================== *)
(** * Further properties of the component *)
(* ================================================================== *)

Lemma handleGenerateSrt_phases
      (P : Platform) (st : AppState) (t : Trace) (audio : File) :
  audioFile st = Some audio ->
  handleGenerateSrt P st t
  = (endGenerate (fst (generateTranscription P audio (referenceText st) t))
                 (beginGenerate st),
     snd (generateTranscription P audio (referenceText st) t)).
Proof.
  intros Hfile. unfold handleGenerateSrt. rewrite Hfile.
  now destruct (generateTranscription P audio (referenceText st) t)
    as [[err | segments] t'].
Qed.

Section ComponentFacts.

Variable P : Platform.
Variables (st : AppState) (t : Trace) (audio : File).
Hypothesis Hfile : audioFile st = Some audio.

Lemma handleGenerateSrt_returned (segments : list TranscriptionSegment) :
  fst (generateTranscription P audio (referenceText st) t) = Return segments ->
  fst (handleGenerateSrt P st t)
  = {| audioFile := Some audio; referenceText := referenceText st;
       srtContent := jsonToSrt segments; isLoading := false;
       error := None |}.
Proof.
  intros H. rewrite (handleGenerateSrt_phases P st t audio Hfile).
  unfold fst at 1. rewrite H.
  unfold endGenerate, beginGenerate, setIsLoading, setSrtContent, setError.
  simpl. now rewrite Hfile.
Qed.

Lemma handleGenerateSrt_threw (err : Thrown) :
  fst (generateTranscription P audio (referenceText st) t) = Throw err ->
  fst (handleGenerateSrt P st t)
  = {| audioFile := Some audio; referenceText := referenceText st;
       srtContent := []; isLoading := false;
       error := Some (errorMessage err) |}.
Proof.
  intros H. rewrite (handleGenerateSrt_phases P st t audio Hfile).
  unfold fst at 1. rewrite H.
  unfold endGenerate, beginGenerate, setIsLoading, setSrtContent, setError.
  simpl. now rewrite Hfile.
Qed.

End ComponentFacts.



(** X14.  With an audio file selected, the state and the effects of an
    attempt depend on the previous state only through the audio file
    and the reference text: an earlier SRT content, error or loading
    flag leaves no mark. *)
Theorem attempt_forgets_previous_result
        (P : Platform) (st1 st2 : AppState) (t : Trace) :
  audioFile st1 = audioFile st2 ->
  referenceText st1 = referenceText st2 ->
  audioFile st1 <> None ->
  handleGenerateSrt P st1 t = handleGenerateSrt P st2 t.
Proof.
  intros Hfile Href Hsome.
  destruct (audioFile st1) as [audio |] eqn:H1; [| congruence].
  rewrite (handleGenerateSrt_phases P st1 t audio H1).
  rewrite (handleGenerateSrt_phases P st2 t audio (eq_sym Hfile)).
  rewrite <- Href. f_equal.
  destruct (fst (generateTranscription P audio (referenceText st1) t));
    unfold endGenerate, beginGenerate, setIsLoading, setSrtContent, setError;
    simpl; now rewrite H1, <- Hfile, Href.
Qed.

Lemma attempt_forgets_previous_result_witness :
  handleGenerateSrt
    (Sample.platform (Return Sample.response)
                     (Return (ReplyArray Sample.segments)))
    {| audioFile := Some Sample.audio; referenceText := None;
       srtContent := lit "stale"; isLoading := false;
       error := Some (lit "old") |} no_trace
  = handleGenerateSrt
      (Sample.platform (Return Sample.response)
                       (Return (ReplyArray Sample.segments)))
      Sample.ready no_trace.
Proof.
  apply (attempt_forgets_previous_result
           (Sample.platform (Return Sample.response)
                            (Return (ReplyArray Sample.segments)))
           {| audioFile := Some Sample.audio; referenceText := None;
              srtContent := lit "stale"; isLoading := false;
              error := Some (lit "old") |}
           Sample.ready no_trace).
  - reflexivity.
  - reflexivity.
  - discriminate.
Defined.

(** X15.  The handler never changes the audio file or the reference
    text.  With an audio file selected it ends with the loading flag
    off and with an empty SRT content or no error; without one it
    changes nothing and sends nothing. *)
Theorem attempt_outcome_is_exclusive
        (P : Platform) (st : AppState) (t : Trace) :
  audioFile (fst (handleGenerateSrt P st t)) = audioFile st
  /\ referenceText (fst (handleGenerateSrt P st t)) = referenceText st
  /\ (audioFile st <> None ->
      isLoading (fst (handleGenerateSrt P st t)) = false
      /\ (srtContent (fst (handleGenerateSrt P st t)) = []
          \/ error (fst (handleGenerateSrt P st t)) = None))
  /\ (audioFile st = None ->
      handleGenerateSrt P st t = (st, t)).
Proof.
  destruct (audioFile st) as [audio |] eqn:Hfile.
  - destruct (fst (generateTranscription P audio (referenceText st) t))
      as [err | segments] eqn:Hrun.
    + rewrite (handleGenerateSrt_threw P st t audio Hfile err Hrun). simpl.
      repeat split; auto; discriminate.
    + rewrite (handleGenerateSrt_returned P st t audio Hfile segments Hrun).
      simpl. repeat split; auto; discriminate.
  - unfold handleGenerateSrt. rewrite Hfile. simpl.
    repeat split; auto; congruence.
Qed.

Lemma attempt_outcome_is_exclusive_witness :
  (isLoading
     (fst (handleGenerateSrt
             (Sample.platform (Return Sample.response) (Return ReplyNull))
             Sample.ready no_trace)) = false
   /\ (srtContent
         (fst (handleGenerateSrt
                 (Sample.platform (Return Sample.response)
                                  (Return ReplyNull))
                 Sample.ready no_trace)) = []
       \/ error
            (fst (handleGenerateSrt
                    (Sample.platform (Return Sample.response)
                                     (Return ReplyNull))
                    Sample.ready no_trace)) = None))
  /\ handleGenerateSrt
       (Sample.platform (Return Sample.response) (Return ReplyNull))
       initialState no_trace = (initialState, no_trace).
Proof.
  split.
  - apply (proj1 (proj2 (proj2 (attempt_outcome_is_exclusive
                                  (Sample.platform (Return Sample.response)
                                                   (Return ReplyNull))
                                  Sample.ready no_trace)))).
    discriminate.
  - apply (proj2 (proj2 (proj2 (attempt_outcome_is_exclusive
                                  (Sample.platform (Return Sample.response)
                                                   (Return ReplyNull))
                                  initialState no_trace)))).
    reflexivity.
Defined.



(* ================================================================== *)
(** * The name of the download *)
(* ================================================================== *)

Section SplitJoin.

Variable sep : code_unit.

Lemma split_at_nonempty (s cur : jsstring) : split_at sep s cur <> [].
Proof.
  revert cur. induction s as [|c s IH]; intros cur; simpl;
    [discriminate |].
  destruct (c =? sep)%N; [discriminate | apply IH].
Qed.

Lemma join_split_at (s : jsstring) :
  forall cur, join [sep] (split_at sep s cur) = rev cur ++ s.
Proof.
  induction s as [|c s IH]; intros cur; simpl.
  - now rewrite app_nil_r.
  - destruct (N.eqb_spec c sep) as [-> | Hc].
    + rewrite join_cons by apply split_at_nonempty.
      now rewrite IH.
    + rewrite IH. simpl. now rewrite <- app_assoc.
Qed.

Lemma join_split (s : jsstring) : join [sep] (split s sep) = s.
Proof. unfold split. now rewrite join_split_at. Qed.

Lemma split_at_last (ext : jsstring) :
  ~ In sep ext ->
  forall s cur,
    split_at sep (s ++ sep :: ext) cur = split_at sep s cur ++ [ext].
Proof.
  intros Hfree. induction s as [|c s IH]; intros cur; simpl.
  - rewrite N.eqb_refl. fold (split ext sep). now rewrite split_free.
  - destruct (c =? sep)%N; [| apply IH].
    now rewrite IH.
Qed.

Lemma removelast_split (base ext : jsstring) :
  ~ In sep ext ->
  removelast (split (base ++ sep :: ext) sep) = split base sep.
Proof.
  intros Hfree. unfold split. rewrite split_at_last by assumption.
  apply removelast_last.
Qed.

End SplitJoin.

(** X18.  For a file name made of a non-empty base, a dot and an
    extension without dot, the download is named by the base followed
    by [.srt]; dots inside the base are kept. *)
Theorem downloadName_replaces_extension (base ext : jsstring) :
  ~ In DOT ext -> base <> [] ->
  downloadName (base ++ [DOT] ++ ext) = base ++ lit ".srt".
Proof.
  intros Hext Hbase. unfold downloadName. cbv zeta.
  change (base ++ [DOT] ++ ext) with (base ++ DOT :: ext).
  rewrite removelast_split by assumption. rewrite join_split.
  destruct base; [congruence | reflexivity].
Qed.

Lemma downloadName_replaces_extension_witness :
  downloadName (lit "talk.final" ++ [DOT] ++ lit "mp3")
  = lit "talk.final" ++ lit ".srt".
Proof.
  apply (downloadName_replaces_extension (lit "talk.final") (lit "mp3")).
  - vm_compute. intuition discriminate.
  - discriminate.
Defined.

(** X19.  For a file name without dot, and for a name whose only dot is
    its first code unit, the download is named [subtitles.srt]. *)
Theorem downloadName_fallback (name : jsstring) :
  ~ In DOT name ->
  downloadName name = lit "subtitles.srt"
  /\ downloadName (DOT :: name) = lit "subtitles.srt".
Proof.
  intros Hfree. unfold downloadName. cbv zeta. split.
  - now rewrite split_free.
  - change (DOT :: name) with ([] ++ DOT :: name).
    now rewrite removelast_split.
Qed.

Lemma downloadName_fallback_witness :
  downloadName (lit "recording") = lit "subtitles.srt"
  /\ downloadName (DOT :: lit "recording") = lit "subtitles.srt".
Proof.
  apply (downloadName_fallback (lit "recording")).
  vm_compute. intuition discriminate.
Defined.

Lemma downloadName_suffix (name : jsstring) :
  exists stem, stem <> [] /\ downloadName name = stem ++ lit ".srt".
Proof.
  unfold downloadName. cbv zeta.
  destruct (join [DOT] (removelast (split name DOT))) as [|c stem].
  - exists (lit "subtitles"). split; [discriminate | reflexivity].
  - exists (c :: stem). split; [discriminate | reflexivity].
Qed.

(* ================================================================== *)
(** * The component as a reactive system *)
(* ================================================================== *)

Lemma consistent_initially : consistent initialUi.
Proof.
  unfold consistent. simpl. repeat split; try lia; try discriminate.
  intros [H | H]; [discriminate | congruence].
Qed.

Lemma consistent_react (u : Ui) (e : Event) :
  consistent u -> consistent (react u e).
Proof.
  destruct u as [st n]. unfold consistent. simpl.
  intros (Hn & Hload & Hfile).
  destruct e as [[f|] | [f|] | result | | | outcome]; simpl; try tauto.
  - repeat split; try tauto; discriminate.
  - unfold generateDisabled.
    destruct (audioFile st) as [audio |] eqn:Ha; simpl;
      [| now rewrite Ha].
    destruct (isLoading st) eqn:Hl; simpl; [now rewrite Ha, Hl |].
    rewrite Ha.
    assert (n = 0%nat) by (destruct Hload as [_ H]; destruct n as [|[|]];
                       [reflexivity | now specialize (H eq_refl) | lia]).
    subst n. repeat split; try lia; try discriminate; auto.
  - destruct n as [|n]; simpl; [tauto |].
    assert (n = 0%nat) by lia. subst n.
    assert (audioFile st <> None) as Ha by (apply Hfile; now left).
    destruct outcome; simpl; repeat split; try lia; try discriminate; auto.
Qed.

Lemma consistent_fold (events : list Event) :
  forall u, consistent u -> consistent (fold_left react events u).
Proof.
  induction events as [|e events IH]; intros u Hu; [exact Hu |].
  simpl. apply IH. now apply consistent_react.
Qed.

(** X20.  After any sequence of events, at most one transcription call
    is in flight, the loading flag is on exactly when one is, and none
    is in flight whenever the generate button is enabled. *)
Theorem one_call_in_flight (events : list Event) :
  (inFlight (after events) <= 1)%nat
  /\ (isLoading (app (after events)) = true <-> inFlight (after events) = 1%nat)
  /\ (generateDisabled (app (after events)) = false ->
      inFlight (after events) = 0%nat).
Proof.
  destruct (consistent_fold events initialUi consistent_initially)
    as (Hn & Hload & _).
  fold (after events) in *.
  split; [exact Hn | split; [exact Hload |]].
  unfold generateDisabled.
  destruct (audioFile (app (after events))); [| discriminate].
  intros Hl. destruct (inFlight (after events)) as [|[|]];
    [reflexivity | | lia].
  destruct Hload as [_ H]. rewrite (H eq_refl) in Hl. discriminate.
Qed.

Lemma one_call_in_flight_witness :
  inFlight
    (after [ChooseAudio (Some Sample.audio); ClickGenerate;
            ChooseText None; Settled (Return Sample.segments)]) = 0%nat.
Proof.
  apply (proj2 (proj2 (one_call_in_flight
                         [ChooseAudio (Some Sample.audio); ClickGenerate;
                          ChooseText None;
                          Settled (Return Sample.segments)]))).
  reflexivity.
Defined.

(** X21.  After any sequence of events, a non-empty SRT content comes
    with a selected audio file, so a click on the download button
    offers exactly that content under a name with a non-empty stem
    followed by [.srt]. *)
Theorem shown_srt_can_be_downloaded (events : list Event) :
  srtContent (app (after events)) <> [] ->
  exists file stem,
    audioFile (app (after events)) = Some file
    /\ stem <> []
    /\ handleDownloadSrt (app (after events))
       = Some {| download := stem ++ lit ".srt";
                 blobParts := [srtContent (app (after events))];
                 blobType := lit "text/plain;charset=utf-8" |}.
Proof.
  intros Hsrt.
  destruct (consistent_fold events initialUi consistent_initially)
    as (_ & _ & Hfile).
  fold (after events) in *.
  destruct (audioFile (app (after events))) as [file |] eqn:Ha.
  - destruct (downloadName_suffix (file_name file)) as (stem & Hstem & E).
    exists file, stem. split; [reflexivity | split; [exact Hstem |]].
    unfold handleDownloadSrt. rewrite Ha, E.
    destruct (srtContent (app (after events))); [congruence | reflexivity].
  - exfalso. apply Hfile; [now right | reflexivity].
Qed.

Lemma shown_srt_can_be_downloaded_witness :
  exists file stem,
    audioFile
      (app (after [ChooseAudio (Some Sample.audio); ClickGenerate;
                   Settled (Return Sample.segments)])) = Some file
    /\ stem <> []
    /\ handleDownloadSrt
         (app (after [ChooseAudio (Some Sample.audio); ClickGenerate;
                      Settled (Return Sample.segments)]))
       = Some {| download := stem ++ lit ".srt";
                 blobParts :=
                   [srtContent
                      (app (after [ChooseAudio (Some Sample.audio);
                                   ClickGenerate;
                                   Settled (Return Sample.segments)]))];
                 blobType := lit "text/plain;charset=utf-8" |}.
Proof.
  apply (shown_srt_can_be_downloaded
           [ChooseAudio (Some Sample.audio); ClickGenerate;
            Settled (Return Sample.segments)]).
  vm_compute. discriminate.
Defined.

(** The handler is its two halves around the call. *)
Lemma click_then_settle (P : Platform) (u : Ui) (t : Trace) (audio : File) :
  audioFile (app u) = Some audio ->
  isLoading (app u) = false ->
  app (react (react u ClickGenerate)
             (Settled (fst (generateTranscription
                              P audio (referenceText (app u)) t))))
  = fst (handleGenerateSrt P (app u) t).
Proof.
  intros Ha Hl. rewrite (handleGenerateSrt_phases P (app u) t audio Ha).
  unfold react at 2, generateDisabled. rewrite Ha, Hl. reflexivity.
Qed.
